(** * firefox-i3-workspaces: the addon's background script

    A shallow embedding of [extension/background.js] and the properties of
    its window registry: identities, markers in window titles, last known
    workspaces, and the three kinds of host messages.

    The script talks to the browser through four WebExtension calls
    ([sessions.getWindowValue], [sessions.setWindowValue], [windows.update],
    [windows.getAll]), to the host through [host.postMessage], and keeps one
    global, [windowMap].  The embedding threads a [World] holding the
    browser's windows, the script's globals and the list of calls made so
    far through every function. *)

From stdpp Require Import gmap strings list fin_maps pretty.

Open Scope string_scope.
Open Scope list_scope.

(** ** Data model *)

(** The typedefs of the script: [UUID] and [Workspace] are strings,
    [WindowID] is a number handed out by the browser. *)
Abbreviation UUID := string (only parsing).
Abbreviation WindowID := nat (only parsing).
Abbreviation Workspace := string (only parsing).

(** *** Insertion-ordered string-keyed tables

    A JavaScript [Map] with string keys, and a plain object used as a
    dictionary, both enumerate their entries in insertion order and hold each
    key once.  They are lists of entries in enumeration order; [set] is
    [Map.prototype.set] (and property assignment): an existing key keeps its
    position and gets the new value, a new key goes to the end.  (An object
    enumerates keys that are array indices first.  The objects the script
    enumerates or builds have identities as keys, which are UUIDs; the
    payload of a rename, whose keys are workspace names, is only read by
    key.) *)
Module JsMap.
Section defs.
Context {V : Type}.

Definition t : Type := list (string * V).

Fixpoint get (m : t) (k : string) : option V :=
  match m with
  | [] => None
  | (k', v) :: m' => if decide (k' = k) then Some v else get m' k
  end.

Fixpoint set (m : t) (k : string) (v : V) : t :=
  match m with
  | [] => [(k, v)]
  | (k', v') :: m' =>
      if decide (k' = k) then (k', v) :: m' else (k', v') :: set m' k v
  end.

(** [new Map(iterable)] and [Object.fromEntries(iterable)]: the entries
    are set one after the other, so a later entry overrides an earlier one
    with the same key. *)
Definition set_all (m : t) (es : list (string * V)) : t :=
  fold_left (fun m e => set m e.1 e.2) es m.

Definition of_entries (es : list (string * V)) : t := set_all [] es.

Definition keys (m : t) : list string := m.*1.

(** A table holds each key once. *)
Definition wf (m : t) : Prop := NoDup (keys m).
End defs.
Arguments t : clear implicits.
End JsMap.

(** *** Values *)

(** What a property read [payload[key]] on a rename payload can give besides
    [undefined] (modelled by [None]): a workspace name the payload holds, or
    a member the payload inherits from [Object.prototype]. *)
Inductive Value : Type :=
  | Str (s : string)
  | Inherited (name : string).

(** The property names every plain object inherits from [Object.prototype]. *)
Definition Object_prototype : list string :=
  [ "constructor"; "__defineGetter__"; "__defineSetter__"; "hasOwnProperty";
    "__lookupGetter__"; "__lookupSetter__"; "isPrototypeOf";
    "propertyIsEnumerable"; "toString"; "valueOf"; "__proto__";
    "toLocaleString" ].

(** [ToPropertyKey] on what [sessions.getWindowValue] returned: [undefined]
    becomes the key ["undefined"]. *)
Definition toPropertyKey (v : option string) : string :=
  match v with
  | None => "undefined"
  | Some s => s
  end.

(** [payload[key]] on a plain object: an own property first, then the
    prototype chain. *)
Definition obj_get (payload : JsMap.t Workspace) (key : string) : option Value :=
  match JsMap.get payload key with
  | Some v => Some (Str v)
  | None => if bool_decide (key ∈ Object_prototype) then Some (Inherited key) else None
  end.

(** *** Messages *)

(** [WindowsPayload = Object<UUID, Workspace>], [RenamePayload =
    Object<Workspace, Workspace>]: objects in enumeration order. *)
Abbreviation WindowsPayload := (JsMap.t Workspace) (only parsing).
Abbreviation RenamePayload := (JsMap.t Workspace) (only parsing).

(** The JSON values that are falsy. *)
Inductive Falsy : Type := FNull | FFalse | FZero | FEmptyString.

(** One property of a host message as [handleHostMessage] tests it: absent
    ([undefined]), present with a falsy value, or the payload object the
    typedefs promise (an object is truthy, also when it is empty). *)
Inductive Field (T : Type) : Type :=
  | Absent
  | FalsyValue (f : Falsy)
  | Obj (payload : T).
Arguments Absent {T}.
Arguments FalsyValue {T} f.
Arguments Obj {T} payload.

(** A message from the host: the three properties the handler looks at. *)
Record Notification : Type := {
  windows : Field WindowsPayload;
  window_move : Field WindowsPayload;        (* message['window::move'] *)
  workspace_rename : Field RenamePayload     (* message['workspace::rename'] *)
}.

(** A value of a sync request: a workspace name or [null]. *)
Inductive Placement : Type :=
  | null
  | placement (ws : Workspace).

(** [WindowsMessage], the sync request sent to the host:
    [{ windows: { uuid: workspace | null } }]. *)
Record WindowsMessage : Type := { request_windows : JsMap.t Placement }.

(** *** The browser *)

(** An open window: the title preface set through [windows.update] and the
    values kept for it by the session store. *)
Record Window : Type := {
  titlePreface : string;
  values : gmap string string
}.

(** A [browser.windows.Window] as the script sees it: it reads [w.id]. *)
Record WindowRef : Type := { id : WindowID }.

Inductive Error : Type :=
  | IncorrectArgumentTypes (api : string)
  | InvalidWindowID (w : WindowID)
  | DataCloneError.

(** A promise once settled. *)
Inductive Settled (A : Type) : Type :=
  | Fulfilled (a : A)
  | Rejected (e : Error).
Arguments Fulfilled {A} a.
Arguments Rejected {A} e.

(** A synchronous call: it returns or it throws. *)
Inductive Completion (A : Type) : Type :=
  | Normal (a : A)
  | Throw (e : Error).
Arguments Normal {A} a.
Arguments Throw {A} e.

(** The calls the script makes, with the arguments it passes.  A window
    handle looked up in [windowMap] is [None] when [Map.get] gave
    [undefined]. *)
Inductive Call : Type :=
  | sessions_getWindowValue (w : WindowID) (key : string)
  | sessions_setWindowValue (w : option WindowID) (key : string) (value : Value)
  | windows_update (w : option WindowID) (preface : string)
  | windows_getAll
  | crypto_randomUUID
  | host_postMessage (message : WindowsMessage).

(** The world the script runs in. *)
Record World : Type := {
  browser : gmap nat Window;          (* the open windows, by id *)
  windowMap : JsMap.t WindowID;       (* let windowMap = new Map() *)
  oldWorkspace : option string;       (* the undeclared, hence global, *)
  newWorkspace : option Value;        (*   variables of workspaceRenamed *)
  uuids : nat -> UUID;                (* what randomUUID will return, *)
  drawn : nat;                        (*   and how many were drawn *)
  calls : list Call                   (* the calls made, oldest first *)
}.

(** ** The calls, as the browser answers them

    The browser handles the calls of one script in the order they are made,
    so a call takes effect where it is made; the promise it returns is
    settled with the answer.  A call whose arguments do not fit the API's
    schema throws instead of returning a promise: [windows.update] and
    [sessions.setWindowValue] require an integer as window id, and the
    script may pass [undefined] there.  A window id that is an integer but
    not the id of an open window rejects the promise. *)

Definition record (c : Call) (σ : World) : World :=
  {| browser := browser σ; windowMap := windowMap σ;
     oldWorkspace := oldWorkspace σ; newWorkspace := newWorkspace σ;
     uuids := uuids σ; drawn := drawn σ; calls := calls σ ++ [c] |}.

Definition set_browser (b : gmap nat Window) (σ : World) : World :=
  {| browser := b; windowMap := windowMap σ;
     oldWorkspace := oldWorkspace σ; newWorkspace := newWorkspace σ;
     uuids := uuids σ; drawn := drawn σ; calls := calls σ |}.

Definition set_windowMap (m : JsMap.t WindowID) (σ : World) : World :=
  {| browser := browser σ; windowMap := m;
     oldWorkspace := oldWorkspace σ; newWorkspace := newWorkspace σ;
     uuids := uuids σ; drawn := drawn σ; calls := calls σ |}.

Definition set_globals (old : option string) (new : option Value) (σ : World) : World :=
  {| browser := browser σ; windowMap := windowMap σ;
     oldWorkspace := old; newWorkspace := new;
     uuids := uuids σ; drawn := drawn σ; calls := calls σ |}.

Definition set_value (key value : string) (w : Window) : Window :=
  {| titlePreface := titlePreface w; values := <[key := value]> (values w) |}.

Definition set_titlePreface (preface : string) (w : Window) : Window :=
  {| titlePreface := preface; values := values w |}.

(** [browser.sessions.getWindowValue(w, key)]: [undefined] ([None]) when the
    window holds no value under [key]. *)
Definition getWindowValue (w : WindowID) (key : string) (σ : World)
  : World * Completion (Settled (option string)) :=
  (record (sessions_getWindowValue w key) σ,
   Normal match browser σ !! w with
          | None => Rejected (InvalidWindowID w)
          | Some win => Fulfilled (values win !! key)
          end).

(** [browser.sessions.setWindowValue(w, key, value)].  A value that is not
    data (a function inherited from [Object.prototype]) cannot be handed to
    the browser. *)
Definition setWindowValue (w : option WindowID) (key : string) (value : Value)
    (σ : World) : World * Completion (Settled unit) :=
  let σ' := record (sessions_setWindowValue w key value) σ in
  match w with
  | None => (σ', Throw (IncorrectArgumentTypes "sessions.setWindowValue"))
  | Some i =>
      match value, browser σ !! i with
      | Inherited _, _ => (σ', Normal (Rejected DataCloneError))
      | Str _, None => (σ', Normal (Rejected (InvalidWindowID i)))
      | Str s, Some win =>
          (set_browser (<[i := set_value key s win]> (browser σ)) σ',
           Normal (Fulfilled tt))
      end
  end.

(** [browser.windows.update(w, { titlePreface })]. *)
Definition update (w : option WindowID) (preface : string) (σ : World)
  : World * Completion (Settled unit) :=
  let σ' := record (windows_update w preface) σ in
  match w with
  | None => (σ', Throw (IncorrectArgumentTypes "windows.update"))
  | Some i =>
      match browser σ !! i with
      | None => (σ', Normal (Rejected (InvalidWindowID i)))
      | Some win =>
          (set_browser (<[i := set_titlePreface preface win]> (browser σ)) σ',
           Normal (Fulfilled tt))
      end
  end.

(** [browser.windows.getAll()]: the open windows. *)
Definition getAll (σ : World) : World * Settled (list WindowRef) :=
  (record windows_getAll σ,
   Fulfilled ((fun e => {| id := e.1 |}) <$> map_to_list (browser σ))).

(** [self.crypto.randomUUID()]. *)
Definition randomUUID (σ : World) : World * UUID :=
  ({| browser := browser σ; windowMap := windowMap σ;
      oldWorkspace := oldWorkspace σ; newWorkspace := newWorkspace σ;
      uuids := uuids σ; drawn := S (drawn σ);
      calls := calls σ ++ [crypto_randomUUID] |},
   uuids σ (drawn σ)).

(** [host.postMessage(message)]. *)
Definition postMessage (message : WindowsMessage) (σ : World) : World :=
  record (host_postMessage message) σ.

(** ** Promises and async functions *)

(** An async function run to its end: the world it leaves and how its
    promise settled. *)
Definition Async (A : Type) : Type := World -> World * Settled A.

Definition resolve {A} (a : A) : Async A := fun σ => (σ, Fulfilled a).

(** [await]: go on with the value, or reject with the reason. *)
Definition await {A B} (c : Async A) (k : A -> Async B) : Async B :=
  fun σ =>
    match c σ with
    | (σ1, Fulfilled a) => k a σ1
    | (σ1, Rejected e) => (σ1, Rejected e)
    end.

Notation "'let!' x ':=' 'await' c 'in' k" := (await c (fun x => k))
  (at level 10, x name, c at level 100, k at level 200).

Definition settled_map {A B} (f : A -> B) (r : Settled A) : Settled B :=
  match r with
  | Fulfilled a => Fulfilled (f a)
  | Rejected e => Rejected e
  end.

(** A call made inside an async function and awaited there: a throw of the
    call rejects the function's promise like a rejection of the call's. *)
Definition awaited {A} (c : World -> World * Completion (Settled A)) : Async A :=
  fun σ =>
    match c σ with
    | (σ1, Normal r) => (σ1, r)
    | (σ1, Throw e) => (σ1, Rejected e)
    end.

(** [Promise.all]: the values in order, or the first rejection. *)
Fixpoint Promise_all {A} (ps : list (Settled A)) : Settled (list A) :=
  match ps with
  | [] => Fulfilled []
  | Fulfilled a :: ps' => settled_map (cons a) (Promise_all ps')
  | Rejected e :: _ => Rejected e
  end.

(** [array.map(async (x) => ...)], one step of every callback: run [f] on
    each element in array order and keep how each run settled.  The callbacks
    of one [map] first all run up to their first [await]; what follows the
    [await] runs later, again in array order, as the answers come in. *)
Fixpoint each {A B} (f : A -> Async B) (l : list A) (σ : World)
  : World * list (Settled B) :=
  match l with
  | [] => (σ, [])
  | x :: l' =>
      let '(σ1, r) := f x σ in
      let '(σ2, rs) := each f l' σ1 in
      (σ2, r :: rs)
  end.

(** [array.map((x) => call(...))] in a function that is not async: the
    promises of the calls, unless one of the calls throws, which ends the
    [map] there. *)
Fixpoint map_calls {A B} (f : A -> World -> World * Completion (Settled B))
    (l : list A) (σ : World) : World * Completion (list (Settled B)) :=
  match l with
  | [] => (σ, Normal [])
  | x :: l' =>
      match f x σ with
      | (σ1, Throw e) => (σ1, Throw e)
      | (σ1, Normal r) =>
          match map_calls f l' σ1 with
          | (σ2, Throw e) => (σ2, Throw e)
          | (σ2, Normal rs) => (σ2, Normal (r :: rs))
          end
      end
  end.

(** ** The script *)

(** [makeWindowMap], the part of a callback after
    [await browser.sessions.getWindowValue(w.id, 'uuid')]. *)
Definition makeWindowMap_resume (x : WindowRef * Settled (option string))
  : Async (UUID * WindowID) :=
  let '(w, read) := x in
  let! uuid := await (fun σ => (σ, read)) in
  match uuid with
  | Some uuid => resolve (uuid, id w)
  | None =>
      fun σ =>
        let '(σ1, uuid) := randomUUID σ in
        (let! _ := await awaited (setWindowValue (Some (id w)) "uuid" (Str uuid)) in
         resolve (uuid, id w)) σ1
  end.

(** [async function makeWindowMap(ws)]: for each window in [ws], make sure
    it has a UUID. *)
Definition makeWindowMap (ws : list WindowRef) : Async (JsMap.t WindowID) :=
  fun σ =>
    let '(σ1, reads) := each (fun w => awaited (getWindowValue (id w) "uuid")) ws σ in
    let '(σ2, entries) := each makeWindowMap_resume (zip ws reads) σ1 in
    (σ2, settled_map JsMap.of_entries (Promise_all entries)).

(** [function updateWindowMap(wmap)]:
    [windowMap = new Map([...windowMap, ...wmap])]. *)
Definition updateWindowMap (wmap : JsMap.t WindowID) (σ : World) : World :=
  set_windowMap (JsMap.of_entries (windowMap σ ++ wmap)) σ.

(** [?? null] on what [getWindowValue] returned. *)
Definition or_null (v : option string) : Placement :=
  match v with
  | None => null
  | Some ws => placement ws
  end.

(** [async function makeWindowsMessage(byUUID)]. *)
Definition makeWindowsMessage (byUUID : JsMap.t WindowID) : Async WindowsMessage :=
  fun σ =>
    let '(σ1, reads) :=
      each (fun e => awaited (getWindowValue e.2 "workspace")) byUUID σ in
    let entries :=
      zip_with (fun e read => settled_map (fun v => (e.1, or_null v)) read)
               byUUID reads in
    (σ1, settled_map (fun es => {| request_windows := JsMap.of_entries es |})
                     (Promise_all entries)).

(** The marker of a window: the template literal [`${uuid} | `]. *)
Definition marker (uuid : UUID) : string := (uuid ++ " | ")%string.

(** [function beaconifyWindows(byUUID)]. *)
Definition beaconifyWindows (byUUID : JsMap.t WindowID) (σ : World)
  : World * Completion (list (Settled unit)) :=
  map_calls (fun e => update (Some e.2) (marker e.1)) byUUID σ.

(** [function unbeaconifyWindows(windows)], over [Object.keys(windows)]. *)
Definition unbeaconifyWindows (payload : WindowsPayload) (σ : World)
  : World * Completion (list (Settled unit)) :=
  map_calls (fun uuid σ => update (JsMap.get (windowMap σ) uuid) "" σ)
            (JsMap.keys payload) σ.

(** [function windowsMoved(payload)], over [Object.entries(payload)]. *)
Definition windowsMoved (payload : WindowsPayload) (σ : World)
  : World * Completion (list (Settled unit)) :=
  map_calls (fun e σ =>
               setWindowValue (JsMap.get (windowMap σ) e.1) "workspace" (Str e.2) σ)
            payload σ.

(** [workspaceRenamed], the part of a callback after
    [await browser.sessions.getWindowValue(w.id, 'workspace')]: the
    assignments to [oldWorkspace] and [newWorkspace], and the write. *)
Definition workspaceRenamed_resume (payload : RenamePayload)
    (x : WindowRef * Settled (option string)) : Async unit :=
  let '(w, read) := x in
  let! old := await (fun σ => (σ, read)) in
  fun σ =>
    let new := obj_get payload (toPropertyKey old) in
    let σ1 := set_globals old new σ in
    match new with
    | Some value => awaited (setWindowValue (Some (id w)) "workspace" value) σ1
    | None => (σ1, Fulfilled tt)
    end.

(** [async function workspaceRenamed(payload)]. *)
Definition workspaceRenamed (payload : RenamePayload) : Async unit :=
  let! ws := await getAll in
  fun σ =>
    let '(σ1, reads) :=
      each (fun w => awaited (getWindowValue (id w) "workspace")) ws σ in
    let '(σ2, writes) := each (workspaceRenamed_resume payload) (zip ws reads) σ1 in
    (σ2, settled_map (fun _ => tt) (Promise_all writes)).

(** A function that is not async, called from an async one: a throw
    rejects the caller's promise. *)
Definition called {A} (c : World -> World * Completion A) : Async A :=
  fun σ =>
    match c σ with
    | (σ1, Normal a) => (σ1, Fulfilled a)
    | (σ1, Throw e) => (σ1, Rejected e)
    end.

(** [await Promise.all(promises)] for promises made before. *)
Definition await_all {A} (ps : list (Settled A)) : Async (list A) :=
  fun σ => (σ, Promise_all ps).

(** The test [if (message.key)]: the payload when the property is truthy. *)
Definition truthy {T} (f : Field T) : option T :=
  match f with
  | Obj payload => Some payload
  | Absent | FalsyValue _ => None
  end.

(** [async function handleHostMessage(message)].  ([console.log] is left
    out here and below.) *)
Definition handleHostMessage (message : Notification) : Async unit :=
  if truthy (windows message) is Some payload then
    let! cleared := await called (unbeaconifyWindows payload) in
    let! moved := await called (windowsMoved payload) in
    let! _ := await await_all (cleared ++ moved) in
    resolve tt
  else if truthy (window_move message) is Some payload then
    let! moved := await called (windowsMoved payload) in
    let! _ := await await_all moved in
    resolve tt
  else if truthy (workspace_rename message) is Some payload then
    workspaceRenamed payload
  else resolve tt.

(** The body shared by [handleWindowCreated] and [main] from
    [const [message, ..._] = await Promise.all([...])] on.  The array is
    built first: [makeWindowsMessage(byUUID)] makes its reads, then
    [beaconifyWindows(byUUID)] makes its updates.  [Promise.all] then waits
    for the request and for every update, and only then the request is
    posted. *)
Definition sync_request (byUUID : JsMap.t WindowID) : Async unit :=
  fun σ =>
    let '(σ1, message) := makeWindowsMessage byUUID σ in
    (let! beacons := await called (beaconifyWindows byUUID) in
     let! message := await (fun σ => (σ, message)) in
     let! _ := await await_all beacons in
     fun σ => (postMessage message σ, Fulfilled tt)) σ1.

(** [async function handleWindowCreated(w)]. *)
Definition handleWindowCreated (w : WindowRef) : Async unit :=
  let! wmap := await makeWindowMap [w] in
  fun σ => sync_request wmap (updateWindowMap wmap σ).

(** [async function main()]: it passes the global [windowMap], as it is
    after the merge, to [makeWindowsMessage] and [beaconifyWindows]. *)
Definition main : Async unit :=
  let! ws := await getAll in
  let! wmap := await makeWindowMap ws in
  fun σ =>
    let σ1 := updateWindowMap wmap σ in
    sync_request (windowMap σ1) σ1.

(** ** The event loop

    The script registers [handleHostMessage] for messages of the host and
    [handleWindowCreated] for new windows, and calls [main] once.  A
    rejected promise of a handler is reported and otherwise dropped. *)
Inductive Event : Type :=
  | Startup
  | Created (w : WindowRef)
  | Message (message : Notification).

Definition handler (e : Event) : Async unit :=
  match e with
  | Startup => main
  | Created w => handleWindowCreated w
  | Message message => handleHostMessage message
  end.

Definition run (es : list Event) (σ : World) : World :=
  fold_left (fun σ e => (handler e σ).1) es σ.

(** ** Observations *)

(** The title preface of window [w], when it is open. *)
Definition title (σ : World) (w : WindowID) : option string :=
  titlePreface <$> browser σ !! w.

(** The session value of window [w] under [key]; [None] is [undefined]. *)
Definition stored (σ : World) (w : WindowID) (key : string) : option string :=
  browser σ !! w ≫= fun win => values win !! key.

(** What a read of [key] in window [w] gives in [σ]. *)
Definition read_of (σ : World) (w : WindowID) (key : string) : Settled (option string) :=
  match browser σ !! w with
  | None => Rejected (InvalidWindowID w)
  | Some win => Fulfilled (values win !! key)
  end.

Definition is_open (σ : World) (w : WindowID) : Prop := is_Some (browser σ !! w).

(** A world at the start of the script, with the given windows open. *)
Definition boot (b : gmap nat Window) (gen : nat -> UUID) : World :=
  {| browser := b; windowMap := []; oldWorkspace := None; newWorkspace := None;
     uuids := gen; drawn := 0; calls := [] |}.

(** ** The writes behind the calls

    The only calls that change a window are [windows.update] and
    [sessions.setWindowValue] on a window id, the latter with a string. *)
Inductive Write : Type :=
  | SetTitle (preface : string)
  | SetValue (key value : string).

Definition write (wr : Write) (win : Window) : Window :=
  match wr with
  | SetTitle preface => set_titlePreface preface win
  | SetValue key value => set_value key value win
  end.

Definition writes_of (c : Call) : list (nat * Write) :=
  match c with
  | windows_update (Some w) preface => [(w, SetTitle preface)]
  | sessions_setWindowValue (Some w) key (Str value) => [(w, SetValue key value)]
  | _ => []
  end.

(** The writes of a list of calls, applied in order to the open windows; a
    write to a window that is not open changes nothing. *)
Definition apply_writes (ws : list (nat * Write)) (b : gmap nat Window)
  : gmap nat Window :=
  fold_left (fun b e => alter (write e.2) e.1 b) ws b.

(** What a list of writes leaves in window [w]: its title preface and its
    session values, from what they were. *)
Definition final_title (ws : list (nat * Write)) (w : nat) (t : string) : string :=
  fold_left (fun t e =>
               if decide (e.1 = w)
               then match e.2 with SetTitle preface => preface | SetValue _ _ => t end
               else t) ws t.

Definition final_values (ws : list (nat * Write)) (w : nat) (m : gmap string string)
  : gmap string string :=
  fold_left (fun m e =>
               if decide (e.1 = w)
               then match e.2 with SetValue k v => <[k := v]> m | SetTitle _ => m end
               else m) ws m.

Definition is_randomUUID (c : Call) : bool :=
  match c with crypto_randomUUID => true | _ => false end.

(** The world after the calls [cs]: the calls are on record, the windows
    have taken the writes, and that many UUIDs were drawn. *)
Definition perform (cs : list Call) (σ : World) : World :=
  {| browser := apply_writes (cs ≫= writes_of) (browser σ);
     windowMap := windowMap σ;
     oldWorkspace := oldWorkspace σ; newWorkspace := newWorkspace σ;
     uuids := uuids σ; drawn := drawn σ + length (filter is_randomUUID cs);
     calls := calls σ ++ cs |}.

(** [effects cs σ σ']: from [σ] to [σ'] the calls [cs] were made, and the
    windows changed by the writes of [cs] and by nothing else. *)
Definition effects (cs : list Call) (σ σ' : World) : Prop :=
  calls σ' = calls σ ++ cs ∧
  browser σ' = apply_writes (cs ≫= writes_of) (browser σ).

(** [made P σ σ']: from [σ] to [σ'] only calls that satisfy [P] were made. *)
Definition made (P : Call → Prop) (σ σ' : World) : Prop :=
  ∃ cs, effects cs σ σ' ∧ Forall P cs.

(** A call that throws: [undefined] where the window id goes. *)
Definition throws (c : Call) : bool :=
  match c with
  | windows_update None _ | sessions_setWindowValue None _ _ => true
  | _ => false
  end.

(** The calls a [map] gets to make when it would make [cs]: up to the first
    one that throws. *)
Fixpoint until_throw (cs : list Call) : list Call :=
  match cs with
  | [] => []
  | c :: cs' => c :: if throws c then [] else until_throw cs'
  end.

(** What a call that throws throws. *)
Definition error_of (c : Call) : Error :=
  match c with
  | windows_update _ _ => IncorrectArgumentTypes "windows.update"
  | _ => IncorrectArgumentTypes "sessions.setWindowValue"
  end.

(** How the promise of a write that does not throw settles, given the open
    windows. *)
Definition answer (c : Call) (b : gmap nat Window) : Settled unit :=
  match c with
  | sessions_setWindowValue _ _ (Inherited _) => Rejected DataCloneError
  | windows_update (Some w) _ | sessions_setWindowValue (Some w) _ (Str _) =>
      if b !! w is Some _ then Fulfilled tt else Rejected (InvalidWindowID w)
  | _ => Fulfilled tt
  end.

(** How a [map] over writes completes when it would make the calls [cs]. *)
Definition completion (cs : list Call) (b : gmap nat Window)
  : Completion (list (Settled unit)) :=
  match find throws cs with
  | Some c => Throw (error_of c)
  | None => Normal ((fun c => answer c b) <$> cs)
  end.

(** The calls of [unbeaconifyWindows] and of [windowsMoved] for a payload,
    if none throws. *)
Definition clear_calls (wm : JsMap.t WindowID) (payload : WindowsPayload) : list Call :=
  (fun uuid => windows_update (JsMap.get wm uuid) "") <$> JsMap.keys payload.

Definition move_calls (wm : JsMap.t WindowID) (payload : WindowsPayload) : list Call :=
  (fun e => sessions_setWindowValue (JsMap.get wm e.1) "workspace" (Str e.2))
    <$> payload.

Definition beacon_calls (byUUID : JsMap.t WindowID) : list Call :=
  (fun e => windows_update (Some e.2) (marker e.1)) <$> byUUID.

(** What [makeWindowMap] does for windows with the given stored identities,
    when the UUIDs drawn from the [n]-th on are [gen n], [gen (S n)], ...:
    for each window its identity, its id, and whether the identity is new. *)
Fixpoint assignments (gen : nat → UUID) (n : nat)
    (l : list (WindowRef * option string)) : list (UUID * WindowID * bool) :=
  match l with
  | [] => []
  | (w, Some uuid) :: l' => (uuid, id w, false) :: assignments gen n l'
  | (w, None) :: l' => (gen n, id w, true) :: assignments gen (S n) l'
  end.

Definition assign_calls (a : list (UUID * WindowID * bool)) : list Call :=
  a ≫= fun x : UUID * WindowID * bool =>
    if x.2 then [crypto_randomUUID;
                 sessions_setWindowValue (Some x.1.2) "uuid" (Str x.1.1)]
    else [].

(** The writes [workspaceRenamed] makes for windows with the given stored
    workspaces. *)
Definition rename_calls (payload : RenamePayload)
    (l : list (WindowRef * option string)) : list Call :=
  l ≫= fun x : WindowRef * option string =>
    match obj_get payload (toPropertyKey x.2) with
    | Some value => [sessions_setWindowValue (Some (id x.1)) "workspace" value]
    | None => []
    end.

(** The calls [handleHostMessage] makes for a sync response. *)
Definition response_calls (wm : JsMap.t WindowID) (payload : WindowsPayload)
  : list Call :=
  if find throws (clear_calls wm payload) is Some _
  then until_throw (clear_calls wm payload)
  else clear_calls wm payload ++ until_throw (move_calls wm payload).

(** How the promise of an async function settles that awaits
    [Promise.all] over the promises of one or two [map]s of writes. *)
Definition all_settled (c : Completion (list (Settled unit))) : Settled unit :=
  match c with
  | Throw e => Rejected e
  | Normal ps => settled_map (fun _ => tt) (Promise_all ps)
  end.

Definition response_outcome (wm : JsMap.t WindowID) (payload : WindowsPayload)
    (b : gmap nat Window) : Settled unit :=
  match completion (clear_calls wm payload) b with
  | Throw e => Rejected e
  | Normal cleared =>
      match completion (move_calls wm payload) b with
      | Throw e => Rejected e
      | Normal moved => all_settled (Normal (cleared ++ moved))
      end
  end.

(** The prefaces the script may write: a marker, or nothing. *)
Definition writes_marker (c : Call) : Prop :=
  match c with
  | windows_update _ preface => preface = "" ∨ ∃ uuid, preface = marker uuid
  | _ => True
  end.

(** A call that is not [windows.update]. *)
Definition no_update (c : Call) : Prop :=
  match c with
  | windows_update _ _ => False
  | _ => True
  end.

(** A call that is not [windows.update], or sets a marker. *)
Definition sets_marker (c : Call) : Prop :=
  match c with
  | windows_update _ preface => ∃ uuid, preface = marker uuid
  | _ => True
  end.

(** A call that only reads. *)
Definition is_read (c : Call) : Prop :=
  match c with
  | sessions_getWindowValue _ _ | windows_getAll => True
  | _ => False
  end.

(** A sync response: a host message whose [windows] property is truthy. *)
Definition is_sync_response (e : Event) : Prop :=
  match e with
  | Message message => is_Some (truthy (windows message))
  | _ => False
  end.


(** [names_window τ payload w]: the payload names an identity that
    [windowMap] maps to window [w]. *)
Definition names_window (τ : World) (payload : WindowsPayload) (w : WindowID) : Prop :=
  ∃ u, u ∈ JsMap.keys payload ∧ JsMap.get (windowMap τ) u = Some w.

(** [clears e τ w]: the event is a sync response which, handled in [τ],
    names window [w]. *)
Definition clears (e : Event) (τ : World) (w : WindowID) : Prop :=
  match e with
  | Message message =>
      if truthy (windows message) is Some payload
      then names_window τ payload w else False
  | _ => False
  end.

(** Events, handled one after the other from [τ] on, of which none clears
    window [w]. *)
Fixpoint quiet_for (w : WindowID) (es : list Event) (τ : World) : Prop :=
  match es with
  | [] => True
  | e :: es' => ¬ clears e τ w ∧ quiet_for w es' (handler e τ).1
  end.

(** ** An example world

    Three open windows.  Windows 1 and 2 have the identities [A] and [B],
    are in [windowMap] and carry their markers (a sync request is under
    way); window 2 was last seen on workspace [2].  Window 3 is new: it has
    no identity yet, no stored workspace and no marker. *)
Definition example_uuids (n : nat) : UUID := ("uuid-" ++ pretty n)%string.

Definition example_browser : gmap nat Window :=
  {[ 1 := {| titlePreface := "A | "; values := {[ "uuid" := "A" ]} |};
     2 := {| titlePreface := "B | ";
             values := {[ "uuid" := "B"; "workspace" := "2" ]} |};
     3 := {| titlePreface := ""; values := ∅ |} ]}.

Definition example_world : World :=
  {| browser := example_browser; windowMap := [("A", 1); ("B", 2)];
     oldWorkspace := None; newWorkspace := None;
     uuids := example_uuids; drawn := 0; calls := [] |}.

Definition sync_response (payload : WindowsPayload) : Notification :=
  {| windows := Obj payload; window_move := Absent; workspace_rename := Absent |}.

Definition move_notification (payload : WindowsPayload) : Notification :=
  {| windows := Absent; window_move := Obj payload; workspace_rename := Absent |}.

Definition rename_notification (payload : RenamePayload) : Notification :=
  {| windows := Absent; window_move := Absent; workspace_rename := Obj payload |}.


(** ** Footprints and invariants *)

(** The calls [handleHostMessage] may make: clearing a title, reading or
    storing a ['workspace'] value, listing the windows. *)
Definition host_message_call (c : Call) : Prop :=
  match c with
  | windows_update _ preface => preface = ""
  | sessions_setWindowValue _ key _ | sessions_getWindowValue _ key =>
      key = "workspace"
  | windows_getAll => True
  | crypto_randomUUID | host_postMessage _ => False
  end.

(** [windowMap] agrees with the session store: a window it gives for an
    identity is open and has that identity as its stored ['uuid']. *)
Definition consistent (σ : World) : Prop :=
  ∀ u w, JsMap.get (windowMap σ) u = Some w →
         is_open σ w ∧ stored σ w "uuid" = Some u.

(** The calls of the tail shared by [main] and [handleWindowCreated]:
    reading a ['workspace'] value, setting a marker, posting the request. *)
Definition request_call (c : Call) : Prop :=
  match c with
  | sessions_getWindowValue _ key => key = "workspace"
  | windows_update (Some _) preface => ∃ uuid, preface = marker uuid
  | host_postMessage _ => True
  | _ => False
  end.

(** The identities [makeWindowMap] settles on for the windows [ws] in
    [σ], and the map it returns. *)
Definition identities (σ : World) (ws : list WindowRef)
  : list (UUID * WindowID * bool) :=
  assignments (uuids σ) (drawn σ) ((fun w => (w, stored σ (id w) "uuid")) <$> ws).

Definition identity_map (σ : World) (ws : list WindowRef) : JsMap.t WindowID :=
  JsMap.of_entries ((fun x : UUID * WindowID * bool => x.1) <$> identities σ ws).
(** * Properties *)

(** * Properties *)

(** ** Tables *)

Section JsMap_facts.
Context {V : Type}.
Implicit Types (m es : JsMap.t V) (k : string) (v : V).

Lemma get_set_eq m k v : JsMap.get (JsMap.set m k v) k = Some v.
Proof.
  induction m as [|[k' v'] m IH]; simpl.
  - by rewrite decide_True.
  - destruct (decide (k' = k)) as [->|Hne]; simpl.
    + by rewrite decide_True.
    + by rewrite decide_False.
Qed.

Lemma get_set_ne m k k' v :
  k ≠ k' → JsMap.get (JsMap.set m k v) k' = JsMap.get m k'.
Proof.
  intros Hne. induction m as [|[k0 v0] m IH]; simpl.
  - by rewrite decide_False.
  - destruct (decide (k0 = k)) as [->|Hk]; simpl.
    + by rewrite !decide_False.
    + by rewrite IH.
Qed.

Lemma get_set m k k' v :
  JsMap.get (JsMap.set m k v) k' =
  if decide (k = k') then Some v else JsMap.get m k'.
Proof.
  destruct (decide (k = k')) as [->|Hne];
    [apply get_set_eq | by apply get_set_ne].
Qed.

Lemma get_None m k : JsMap.get m k = None ↔ k ∉ JsMap.keys m.
Proof.
  unfold JsMap.keys. induction m as [|[k' v'] m IH]; csimpl.
  - split; [intros _; apply not_elem_of_nil | done].
  - rewrite not_elem_of_cons. destruct (decide (k' = k)) as [->|Hne].
    + split; [done | by intros [? _]].
    + rewrite IH. split; [by intros | by intros [_ ?]].
Qed.

Lemma get_is_Some m k : is_Some (JsMap.get m k) ↔ k ∈ JsMap.keys m.
Proof.
  rewrite <- not_eq_None_Some, get_None.
  destruct (decide (k ∈ JsMap.keys m)); tauto.
Qed.

Lemma get_Some_elem_of m k v : JsMap.get m k = Some v → (k, v) ∈ m.
Proof.
  induction m as [|[k' v'] m IH]; simpl; [done|].
  destruct (decide (k' = k)) as [->|Hne].
  - intros [= ->]. apply elem_of_cons; by left.
  - intros H. apply elem_of_cons; right; auto.
Qed.

Lemma elem_of_get m k v : JsMap.wf m → (k, v) ∈ m → JsMap.get m k = Some v.
Proof.
  unfold JsMap.wf, JsMap.keys.
  induction m as [|[k' v'] m IH]; csimpl; intros Hwf Hin.
  - by apply elem_of_nil in Hin.
  - apply NoDup_cons in Hwf as [Hk Hwf].
    apply elem_of_cons in Hin as [[= -> ->]|Hin].
    + by rewrite decide_True.
    + rewrite decide_False; [by apply IH|].
      intros ->. apply Hk. apply list_elem_of_fmap. by exists (k, v).
Qed.

Lemma keys_set m k v :
  JsMap.keys (JsMap.set m k v) =
  if bool_decide (k ∈ JsMap.keys m) then JsMap.keys m else JsMap.keys m ++ [k].
Proof.
  unfold JsMap.keys. induction m as [|[k' v'] m IH]; csimpl.
  - done.
  - destruct (decide (k' = k)) as [->|Hne]; csimpl.
    + rewrite bool_decide_true; [done | apply elem_of_cons; by left].
    + rewrite IH. destruct (decide (k ∈ m.*1)) as [Hin|Hin].
      * rewrite !bool_decide_true; [done| |done]. apply elem_of_cons; by right.
      * rewrite !bool_decide_false; [done| |done].
        rewrite not_elem_of_cons. naive_solver.
Qed.

Lemma wf_set m k v : JsMap.wf m → JsMap.wf (JsMap.set m k v).
Proof.
  unfold JsMap.wf. rewrite keys_set. case_bool_decide as Hin; [done|].
  intros Hwf. apply NoDup_app. split_and!; [done| |apply NoDup_singleton].
  intros x Hx Hx'. apply list_elem_of_singleton in Hx' as ->. done.
Qed.

Lemma set_fresh m k v : k ∉ JsMap.keys m → JsMap.set m k v = m ++ [(k, v)].
Proof.
  unfold JsMap.keys. induction m as [|[k' v'] m IH]; simpl; [done|].
  rewrite not_elem_of_cons. intros [Hne Hk].
  rewrite decide_False by done. by rewrite IH.
Qed.

Lemma set_all_cons m k v es :
  JsMap.set_all m ((k, v) :: es) = JsMap.set_all (JsMap.set m k v) es.
Proof. done. Qed.

Lemma wf_set_all es m : JsMap.wf m → JsMap.wf (JsMap.set_all m es).
Proof.
  revert m. induction es as [|[k v] es IH]; simpl; intros m Hm; [done|].
  apply IH. by apply wf_set.
Qed.

Lemma wf_of_entries es : JsMap.wf (JsMap.of_entries es).
Proof. apply wf_set_all. apply NoDup_nil_2. Qed.

(** Setting the entries of a table into another: the entries set win. *)
Lemma get_set_all es m k :
  JsMap.wf es →
  JsMap.get (JsMap.set_all m es) k =
  match JsMap.get es k with Some v => Some v | None => JsMap.get m k end.
Proof.
  unfold JsMap.wf, JsMap.keys. revert m.
  induction es as [|[k' v'] es IH]; simpl; intros m Hwf; [done|].
  apply NoDup_cons in Hwf as [Hk Hwf]. rewrite IH by done.
  destruct (decide (k' = k)) as [->|Hne].
  - assert (JsMap.get es k = None) as -> by by apply get_None.
    apply get_set_eq.
  - destruct (JsMap.get es k); [done|]. by apply get_set_ne.
Qed.

Lemma keys_set_all es m k :
  k ∈ JsMap.keys (JsMap.set_all m es) ↔ k ∈ JsMap.keys m ∨ k ∈ JsMap.keys es.
Proof.
  revert m. induction es as [|[k' v'] es IH]; intros m.
  - cbn. rewrite elem_of_nil. tauto.
  - rewrite set_all_cons, IH, keys_set. unfold JsMap.keys. csimpl. rewrite elem_of_cons.
    case_bool_decide as Hin.
    + split; [tauto|]. intros [?|[->|?]]; auto.
    + rewrite elem_of_app, list_elem_of_singleton. tauto.
Qed.

Lemma set_all_app m es es' : JsMap.set_all m (es ++ es') = JsMap.set_all (JsMap.set_all m es) es'.
Proof. apply fold_left_app. Qed.

(** A table read back entry by entry is the table. *)
Lemma set_all_fresh es m :
  JsMap.wf (m ++ es) → JsMap.set_all m es = m ++ es.
Proof.
  unfold JsMap.wf, JsMap.keys. revert m.
  induction es as [|[k v] es IH]; simpl; intros m Hwf.
  - by rewrite app_nil_r.
  - rewrite set_fresh.
    + rewrite IH; rewrite <- app_assoc; done.
    + rewrite fmap_app in Hwf. apply NoDup_app in Hwf as (_ & Hdisj & _).
      intros Hin. apply (Hdisj k Hin). simpl. apply elem_of_cons; by left.
Qed.

Lemma of_entries_wf es : JsMap.wf es → JsMap.of_entries es = es.
Proof. intros Hwf. apply (set_all_fresh es []). done. Qed.
End JsMap_facts.

(** ** Writes *)

Section writes.
Implicit Types (b : gmap nat Window) (ws : list (nat * Write)) (w : nat).

Lemma apply_writes_app ws ws' b :
  apply_writes (ws ++ ws') b = apply_writes ws' (apply_writes ws b).
Proof. apply fold_left_app. Qed.

Lemma final_title_app ws ws' w t :
  final_title (ws ++ ws') w t = final_title ws' w (final_title ws w t).
Proof. apply fold_left_app. Qed.

Lemma final_values_app ws ws' w m :
  final_values (ws ++ ws') w m = final_values ws' w (final_values ws w m).
Proof. apply fold_left_app. Qed.

(** A window after a list of writes. *)
Lemma lookup_apply_writes ws b w :
  apply_writes ws b !! w =
  (fun win => {| titlePreface := final_title ws w (titlePreface win);
                 values := final_values ws w (values win) |}) <$> b !! w.
Proof.
  revert b. induction ws as [|[i wr] ws IH]; intros b.
  - cbn. by destruct (b !! w) as [[]|].
  - cbn [apply_writes fold_left]. fold (apply_writes ws (alter (write wr) i b)).
    rewrite IH. cbn [final_title final_values fold_left fst snd].
    rewrite lookup_alter. destruct (decide (i = w)) as [->|Hne].
    + destruct (b !! w) as [win|]; [|done]. by destruct wr.
    + done.
Qed.

Lemma apply_writes_is_Some ws b w :
  is_Some (apply_writes ws b !! w) ↔ is_Some (b !! w).
Proof. rewrite lookup_apply_writes. apply fmap_is_Some. Qed.

(** The title after writes that all set the same preface. *)
Lemma final_title_agree ws w t p :
  (∀ q, (w, SetTitle q) ∈ ws → q = p) →
  (∃ q, (w, SetTitle q) ∈ ws) →
  final_title ws w t = p.
Proof.
  induction ws as [|[i wr] ws IH] using rev_ind; intros Hall [q Hq].
  - by apply elem_of_nil in Hq.
  - rewrite final_title_app. cbn.
    destruct (decide (i = w)) as [->|Hne].
    + destruct wr as [p'|k v].
      * apply Hall. apply elem_of_app; right. by apply list_elem_of_singleton.
      * apply IH.
        -- intros q' Hq'. apply Hall. apply elem_of_app; by left.
        -- apply elem_of_app in Hq as [Hq|Hq]; [by exists q|].
           by apply list_elem_of_singleton in Hq.
    + apply IH.
      * intros q' Hq'. apply Hall. apply elem_of_app; by left.
      * apply elem_of_app in Hq as [Hq|Hq]; [by exists q|].
        apply list_elem_of_singleton in Hq. congruence.
Qed.

Lemma final_title_untouched ws w t :
  (∀ q, (w, SetTitle q) ∉ ws) → final_title ws w t = t.
Proof.
  induction ws as [|[i wr] ws IH] using rev_ind; intros Hno; [done|].
  rewrite final_title_app. cbn.
  assert (final_title ws w t = t) as ->.
  { apply IH. intros q Hq. apply (Hno q). apply elem_of_app; by left. }
  destruct (decide (i = w)) as [->|Hne]; [|done].
  destruct wr as [p|]; [|done].
  exfalso. apply (Hno p). apply elem_of_app; right.
  by apply list_elem_of_singleton.
Qed.

(** The value under [k] after writes that all set the same value there. *)
Lemma final_values_agree ws w m k x :
  (∀ v, (w, SetValue k v) ∈ ws → v = x) →
  (∃ v, (w, SetValue k v) ∈ ws) →
  final_values ws w m !! k = Some x.
Proof.
  induction ws as [|[i wr] ws IH] using rev_ind; intros Hall [v Hv].
  - by apply elem_of_nil in Hv.
  - rewrite final_values_app. cbn.
    assert (∀ v', (w, SetValue k v') ∈ ws → v' = x) as Hall'.
    { intros v' Hv'. apply Hall. apply elem_of_app; by left. }
    destruct (decide (i = w)) as [->|Hne].
    + destruct wr as [p|k' v'].
      * apply IH; [done|].
        apply elem_of_app in Hv as [Hv|Hv]; [by exists v|].
        by apply list_elem_of_singleton in Hv.
      * destruct (decide (k' = k)) as [->|Hk].
        -- rewrite lookup_insert_eq. f_equal. apply Hall.
           apply elem_of_app; right. by apply list_elem_of_singleton.
        -- rewrite lookup_insert_ne by done. apply IH; [done|].
           apply elem_of_app in Hv as [Hv|Hv]; [by exists v|].
           apply list_elem_of_singleton in Hv. congruence.
    + apply IH; [done|].
      apply elem_of_app in Hv as [Hv|Hv]; [by exists v|].
      apply list_elem_of_singleton in Hv. congruence.
Qed.

Lemma final_values_untouched ws w m k :
  (∀ v, (w, SetValue k v) ∉ ws) → final_values ws w m !! k = m !! k.
Proof.
  induction ws as [|[i wr] ws IH] using rev_ind; intros Hno; [done|].
  rewrite final_values_app. cbn.
  assert (final_values ws w m !! k = m !! k) as Hm.
  { apply IH. intros v Hv. apply (Hno v). apply elem_of_app; by left. }
  destruct (decide (i = w)) as [->|Hne]; [|done].
  destruct wr as [|k' v']; [done|].
  destruct (decide (k' = k)) as [->|Hk]; [|by rewrite lookup_insert_ne].
  exfalso. apply (Hno v'). apply elem_of_app; right.
  by apply list_elem_of_singleton.
Qed.

(** Writes are assignments: made twice, they leave what they leave when
    made once. *)
Lemma final_title_idem ws w t :
  final_title ws w (final_title ws w t) = final_title ws w t.
Proof.
  assert ((∀ t, final_title ws w t = t) ∨ (∃ p, ∀ t, final_title ws w t = p))
    as [Hid|[p Hp]]; [|by rewrite !Hid|by rewrite !Hp].
  induction ws as [|[i wr] ws IH] using rev_ind; [by left|].
  setoid_rewrite final_title_app. cbn.
  destruct (decide (i = w)) as [->|Hne]; [|done].
  destruct wr as [p|]; [|done]. right. by exists p.
Qed.

Lemma final_values_union ws w m :
  final_values ws w m = final_values ws w ∅ ∪ m.
Proof.
  induction ws as [|[i wr] ws IH] using rev_ind.
  - cbn. by rewrite (left_id_L ∅ (∪)).
  - rewrite !final_values_app. cbn.
    destruct (decide (i = w)) as [->|Hne]; [|done].
    destruct wr as [|k v]; [done|].
    rewrite IH. by rewrite insert_union_l.
Qed.

Lemma final_values_idem ws w m :
  final_values ws w (final_values ws w m) = final_values ws w m.
Proof.
  rewrite (final_values_union ws w (final_values ws w m)).
  rewrite (final_values_union ws w m).
  by rewrite (assoc_L (∪)), (idemp_L (∪)).
Qed.

Lemma apply_writes_idem ws b :
  apply_writes ws (apply_writes ws b) = apply_writes ws b.
Proof.
  apply map_eq. intros w. rewrite !lookup_apply_writes.
  destruct (b !! w) as [win|]; [|done]. cbn.
  by rewrite final_title_idem, final_values_idem.
Qed.
End writes.

(** ** Calls *)

Section calls.
Implicit Types (σ : World) (cs : list Call) (w : nat).

Lemma perform_nil σ : perform [] σ = σ.
Proof.
  destruct σ. unfold perform. cbn. f_equal; [lia | apply app_nil_r].
Qed.

Lemma perform_app cs cs' σ : perform cs' (perform cs σ) = perform (cs ++ cs') σ.
Proof.
  unfold perform. cbn. f_equal.
  - by rewrite bind_app, apply_writes_app.
  - rewrite filter_app, length_app. lia.
  - by rewrite app_assoc.
Qed.

Lemma perform_effects cs σ : effects cs σ (perform cs σ).
Proof. done. Qed.

Lemma alter_lookup_Some (f : Window → Window) (b : gmap nat Window) w win :
  b !! w = Some win → <[w := f win]> b = alter f w b.
Proof.
  intros Hw. apply map_eq. intros j. rewrite lookup_alter, lookup_insert.
  destruct (decide (w = j)) as [->|]; [by rewrite Hw | done].
Qed.

Lemma alter_lookup_None (f : Window → Window) (b : gmap nat Window) w :
  b !! w = None → alter f w b = b.
Proof.
  intros Hw. apply map_eq. intros j. rewrite lookup_alter.
  destruct (decide (w = j)) as [->|]; [by rewrite Hw | done].
Qed.

Lemma perform_one c σ :
  perform [c] σ =
  {| browser := apply_writes (writes_of c) (browser σ);
     windowMap := windowMap σ;
     oldWorkspace := oldWorkspace σ; newWorkspace := newWorkspace σ;
     uuids := uuids σ;
     drawn := drawn σ + (if is_randomUUID c then 1 else 0);
     calls := calls σ ++ [c] |}.
Proof.
  unfold perform. cbn. rewrite app_nil_r. f_equal.
  by destruct c.
Qed.

Lemma update_world wo p σ : (update wo p σ).1 = perform [windows_update wo p] σ.
Proof.
  rewrite perform_one. unfold update, record, set_browser.
  destruct wo as [i|]; cbn.
  - destruct (browser σ !! i) as [win|] eqn:Hi; cbn.
    + f_equal; [by apply alter_lookup_Some | lia].
    + f_equal; [by rewrite alter_lookup_None | lia].
  - f_equal. lia.
Qed.

Lemma update_result wo p σ :
  (update wo p σ).2 =
  match wo with
  | None => Throw (IncorrectArgumentTypes "windows.update")
  | Some i =>
      Normal (if browser σ !! i is Some _ then Fulfilled tt
              else Rejected (InvalidWindowID i))
  end.
Proof.
  unfold update. destruct wo as [i|]; [|done].
  by destruct (browser σ !! i).
Qed.

Lemma setWindowValue_world wo k v σ :
  (setWindowValue wo k v σ).1 = perform [sessions_setWindowValue wo k v] σ.
Proof.
  rewrite perform_one. unfold setWindowValue, record, set_browser.
  destruct wo as [i|]; cbn.
  - destruct v as [s|name]; cbn.
    + destruct (browser σ !! i) as [win|] eqn:Hi; cbn.
      * f_equal; [by apply alter_lookup_Some | lia].
      * f_equal; [by rewrite alter_lookup_None | lia].
    + f_equal. lia.
  - f_equal. lia.
Qed.

Lemma setWindowValue_result wo k v σ :
  (setWindowValue wo k v σ).2 =
  match wo, v with
  | None, _ => Throw (IncorrectArgumentTypes "sessions.setWindowValue")
  | Some i, Inherited _ => Normal (Rejected DataCloneError)
  | Some i, Str _ =>
      Normal (if browser σ !! i is Some _ then Fulfilled tt
              else Rejected (InvalidWindowID i))
  end.
Proof.
  unfold setWindowValue. destruct wo as [i|]; [|done].
  destruct v; [|done]. by destruct (browser σ !! i).
Qed.

Lemma getWindowValue_world w k σ :
  (getWindowValue w k σ).1 = perform [sessions_getWindowValue w k] σ.
Proof.
  rewrite perform_one. unfold getWindowValue, record. cbn. f_equal. lia.
Qed.

Lemma randomUUID_world σ : (randomUUID σ).1 = perform [crypto_randomUUID] σ.
Proof. rewrite perform_one. unfold randomUUID. cbn. f_equal. lia. Qed.

Lemma getAll_world σ : (getAll σ).1 = perform [windows_getAll] σ.
Proof. rewrite perform_one. unfold getAll, record. cbn. f_equal. lia. Qed.

Lemma postMessage_world m σ : postMessage m σ = perform [host_postMessage m] σ.
Proof. rewrite perform_one. unfold postMessage, record. cbn. f_equal. lia. Qed.

Lemma browser_perform_reads cs σ :
  Forall is_read cs → browser (perform cs σ) = browser σ.
Proof.
  intros Hcs. cbn. assert (cs ≫= writes_of = []) as ->; [|done].
  induction Hcs as [|c cs Hc _ IH]; [done|]. cbn. rewrite IH.
  by destruct c.
Qed.

(** The first step of the callbacks of a [map] that each begin with
    [await browser.sessions.getWindowValue(..., key)]. *)
Lemma each_getWindowValue {A} (h : A → nat) key (l : list A) σ :
  each (fun x => awaited (getWindowValue (h x) key)) l σ =
  (perform ((fun x => sessions_getWindowValue (h x) key) <$> l) σ,
   (fun x => read_of σ (h x) key) <$> l).
Proof.
  revert σ. induction l as [|x l IH]; intros σ.
  - cbn [each fmap list_fmap]. by rewrite perform_nil.
  - cbn [each]. unfold awaited at 1.
    pose proof (getWindowValue_world (h x) key σ) as Hw.
    destruct (getWindowValue (h x) key σ) as [σ1 r] eqn:Hg.
    cbn in Hw. subst σ1. unfold getWindowValue in Hg.
    injection Hg as _ <-. rewrite IH, perform_app. cbn. by do 2 f_equal.
Qed.
End calls.

(** ** Promises *)

Lemma Promise_all_Fulfilled {A} (l : list A) :
  Promise_all (Fulfilled <$> l) = Fulfilled l.
Proof. induction l as [|a l IH]; [done|]. cbn. by rewrite IH. Qed.

Lemma zip_with_fmap_r {A B C} (f : A → B → C) (g : A → B) (l : list A) :
  zip_with f l (g <$> l) = (fun x => f x (g x)) <$> l.
Proof. induction l as [|x l IH]; [done|]. cbn. by rewrite IH. Qed.

Lemma read_of_open σ w key :
  is_open σ w → read_of σ w key = Fulfilled (stored σ w key).
Proof. intros [win Hw]. unfold read_of, stored. by rewrite Hw. Qed.

(** ** The sync request: [makeWindowsMessage] *)

(** C5.  For a window map [byUUID] whose windows are open,
    [makeWindowsMessage] fulfils with [{ windows: ... }] holding exactly one
    entry per identity of [byUUID], in the map's order, whose value is the
    window's stored ['workspace'] value, or [null] when none is stored.  The
    only calls it makes are reads ([sessions.getWindowValue]): the windows
    (titles and session values) and [windowMap] are left as they were. *)
Theorem makeWindowsMessage_reads (byUUID : JsMap.t nat) (σ : World) :
  JsMap.wf byUUID →
  (∀ u w, (u, w) ∈ byUUID → is_open σ w) →
  let result := makeWindowsMessage byUUID σ in
  result.2 =
    Fulfilled {| request_windows :=
                   (fun e => (e.1, or_null (stored σ e.2 "workspace"))) <$> byUUID |}
  ∧ browser result.1 = browser σ
  ∧ windowMap result.1 = windowMap σ
  ∧ ∃ reads, calls result.1 = calls σ ++ reads ∧ Forall is_read reads.
Proof.
  intros Hwf Hopen result. subst result. unfold makeWindowsMessage.
  rewrite each_getWindowValue. cbn [fst snd]. split_and!.
  - rewrite zip_with_fmap_r.
    assert ((fun e : string * nat =>
               settled_map (fun v => (e.1, or_null v)) (read_of σ e.2 "workspace"))
              <$> byUUID
            = Fulfilled <$>
                ((fun e => (e.1, or_null (stored σ e.2 "workspace"))) <$> byUUID))
      as ->.
    { rewrite <- list_fmap_compose. apply list_fmap_ext. intros i [u w] Hin.
      apply list_elem_of_lookup_2 in Hin. cbn.
      by rewrite (read_of_open σ w) by eauto. }
    rewrite Promise_all_Fulfilled. cbn. do 2 f_equal.
    apply of_entries_wf. unfold JsMap.wf, JsMap.keys in *.
    by rewrite <- list_fmap_compose.
  - apply browser_perform_reads. apply Forall_fmap, Forall_true. done.
  - done.
  - eexists. split; [done|]. apply Forall_fmap, Forall_true. done.
Qed.

(** ** The window map: [updateWindowMap] *)

(** C9.  [updateWindowMap] replaces [windowMap] by the union of the old map
    and the new mapping: an identity of the new mapping gets the handle the
    new mapping gives it, any other identity keeps the handle of the old map,
    and the identities of the result are those of either.  Nothing else in
    the world changes. *)
Theorem updateWindowMap_merge (wmap : JsMap.t nat) (σ : World) :
  JsMap.wf (windowMap σ) →
  JsMap.wf wmap →
  let σ' := updateWindowMap wmap σ in
  (∀ u, JsMap.get (windowMap σ') u =
        match JsMap.get wmap u with
        | Some w => Some w
        | None => JsMap.get (windowMap σ) u
        end)
  ∧ (∀ u, u ∈ JsMap.keys (windowMap σ') ↔
          u ∈ JsMap.keys (windowMap σ) ∨ u ∈ JsMap.keys wmap)
  ∧ JsMap.wf (windowMap σ')
  ∧ browser σ' = browser σ ∧ calls σ' = calls σ.
Proof.
  intros Hold Hnew σ'. subst σ'. unfold updateWindowMap. cbn.
  unfold JsMap.of_entries. rewrite set_all_app.
  fold (JsMap.of_entries (windowMap σ)). rewrite of_entries_wf by done.
  split_and!; [|intros u; apply keys_set_all|by apply wf_set_all|done|done].
  intros u. by apply get_set_all.
Qed.

(** ** Host messages that are none of the three kinds *)

(** C10.  A host message whose properties [windows], ['window::move'] and
    ['workspace::rename'] are each absent or falsy makes [handleHostMessage]
    fulfil without a call and without a change to the world: no title, no
    session value and no entry of [windowMap] is touched. *)
Theorem handleHostMessage_inert (message : Notification) (σ : World) :
  truthy (windows message) = None →
  truthy (window_move message) = None →
  truthy (workspace_rename message) = None →
  handleHostMessage message σ = (σ, Fulfilled tt).
Proof.
  intros H1 H2 H3. unfold handleHostMessage. by rewrite H1, H2, H3.
Qed.

(** ** Maps over writes *)

Section map_calls.
Implicit Types (σ : World) (cs : list Call) (b : gmap nat Window).

Lemma update_spec wo p σ :
  let c := windows_update wo p in
  update wo p σ =
  (perform [c] σ,
   if throws c then Throw (error_of c) else Normal (answer c (browser σ))).
Proof.
  intros c. rewrite (surjective_pairing (update wo p σ)).
  rewrite update_world, update_result. by destruct wo.
Qed.

Lemma setWindowValue_spec wo k v σ :
  let c := sessions_setWindowValue wo k v in
  setWindowValue wo k v σ =
  (perform [c] σ,
   if throws c then Throw (error_of c) else Normal (answer c (browser σ))).
Proof.
  intros c. rewrite (surjective_pairing (setWindowValue wo k v σ)).
  rewrite setWindowValue_world, setWindowValue_result.
  destruct wo; [|done]. by destruct v.
Qed.

Lemma answer_apply_writes c ws b : answer c (apply_writes ws b) = answer c b.
Proof.
  assert (∀ w, (if apply_writes ws b !! w is Some _ then Fulfilled tt
                else Rejected (InvalidWindowID w))
               = (if b !! w is Some _ then Fulfilled tt
                  else Rejected (InvalidWindowID w))) as Hw.
  { intros w. rewrite lookup_apply_writes. by destruct (b !! w). }
  destruct c as [| [w|] ? [] | [w|] ? | | |]; cbn; auto.
Qed.

Lemma until_throw_no_throw cs : find throws cs = None → until_throw cs = cs.
Proof.
  induction cs as [|c cs IH]; [done|]. cbn.
  destruct (throws c); [done|]. intros H. by rewrite IH.
Qed.

Lemma find_throws_None cs :
  find throws cs = None ↔ Forall (fun c => throws c = false) cs.
Proof.
  induction cs as [|c cs IH]; cbn.
  - split; [constructor | done].
  - rewrite Forall_cons. destruct (throws c); [|rewrite IH; tauto].
    split; [done | by intros [? _]].
Qed.

(** A [map] whose callback makes one write, with the window handle taken
    from [windowMap]. *)
Lemma map_calls_spec {A} (f : A → World → World * Completion (Settled unit))
    (mk : JsMap.t nat → A → Call) (l : list A) σ :
  (∀ x σ, f x σ =
          (perform [mk (windowMap σ) x] σ,
           if throws (mk (windowMap σ) x)
           then Throw (error_of (mk (windowMap σ) x))
           else Normal (answer (mk (windowMap σ) x) (browser σ)))) →
  map_calls f l σ =
  (perform (until_throw (mk (windowMap σ) <$> l)) σ,
   completion (mk (windowMap σ) <$> l) (browser σ)).
Proof.
  intros Hf. revert σ. induction l as [|x l IH]; intros σ.
  - cbn. by rewrite perform_nil.
  - cbn [map_calls]. rewrite Hf. unfold completion. cbn [fmap list_fmap find until_throw].
    destruct (throws (mk (windowMap σ) x)) eqn:Hx.
    { reflexivity. }
    rewrite IH. rewrite perform_app. cbn [windowMap perform app].
    unfold completion.
    destruct (find throws (mk (windowMap σ) <$> l)); [reflexivity|].
    do 3 f_equal.
    apply list_fmap_ext. intros i c _.
    apply answer_apply_writes.
Qed.

Lemma unbeaconifyWindows_spec payload σ :
  unbeaconifyWindows payload σ =
  (perform (until_throw (clear_calls (windowMap σ) payload)) σ,
   completion (clear_calls (windowMap σ) payload) (browser σ)).
Proof.
  unfold unbeaconifyWindows, clear_calls.
  apply (map_calls_spec _ (fun wm uuid => windows_update (JsMap.get wm uuid) "")).
  intros x τ. apply update_spec.
Qed.

Lemma windowsMoved_spec payload σ :
  windowsMoved payload σ =
  (perform (until_throw (move_calls (windowMap σ) payload)) σ,
   completion (move_calls (windowMap σ) payload) (browser σ)).
Proof.
  unfold windowsMoved, move_calls.
  apply (map_calls_spec _
           (fun wm e => sessions_setWindowValue (JsMap.get wm e.1) "workspace" (Str e.2))).
  intros x τ. apply setWindowValue_spec.
Qed.

Lemma beacon_calls_no_throw byUUID : find throws (beacon_calls byUUID) = None.
Proof.
  apply find_throws_None. unfold beacon_calls. apply Forall_fmap, Forall_true.
  done.
Qed.

Lemma beaconifyWindows_spec byUUID σ :
  beaconifyWindows byUUID σ =
  (perform (beacon_calls byUUID) σ,
   Normal ((fun c => answer c (browser σ)) <$> beacon_calls byUUID)).
Proof.
  unfold beaconifyWindows.
  rewrite (map_calls_spec _ (fun _ e => windows_update (Some e.2) (marker e.1)))
    by (intros x τ; apply update_spec).
  fold (beacon_calls byUUID). unfold completion.
  by rewrite until_throw_no_throw, beacon_calls_no_throw
    by apply beacon_calls_no_throw.
Qed.

(** Whether a call of a payload throws depends on its identity alone. *)
Lemma find_throws_clear_move wm payload :
  find throws (clear_calls wm payload) = None ↔
  find throws (move_calls wm payload) = None.
Proof.
  rewrite !find_throws_None. unfold clear_calls, move_calls, JsMap.keys.
  rewrite !Forall_fmap. rewrite !Forall_forall. split.
  - intros H [u ws] Hin. specialize (H (u, ws) Hin). cbn in *.
    by destruct (JsMap.get wm u).
  - intros H [u ws] Hin. specialize (H (u, ws) Hin). cbn in *.
    by destruct (JsMap.get wm u).
Qed.

Lemma find_throws_known wm payload :
  find throws (clear_calls wm payload) = None ↔
  ∀ u, u ∈ JsMap.keys payload → is_Some (JsMap.get wm u).
Proof.
  rewrite find_throws_None. unfold clear_calls. rewrite Forall_fmap, Forall_forall.
  split; intros H u Hu; specialize (H u Hu); cbn in *.
  - by destruct (JsMap.get wm u).
  - by destruct H as [w ->].
Qed.
End map_calls.

(** ** Sync responses and move notifications *)

Section responses.
Implicit Types (σ : World) (message : Notification) (payload : JsMap.t string).

Lemma completion_apply_writes cs ws b :
  completion cs (apply_writes ws b) = completion cs b.
Proof.
  unfold completion. destruct (find throws cs); [done|]. f_equal.
  apply list_fmap_ext. intros i c _. apply answer_apply_writes.
Qed.

Lemma handleHostMessage_response message payload σ :
  truthy (windows message) = Some payload →
  handleHostMessage message σ =
  (perform (response_calls (windowMap σ) payload) σ,
   response_outcome (windowMap σ) payload (browser σ)).
Proof.
  intros Hm. unfold handleHostMessage. rewrite Hm.
  unfold await at 1. unfold called at 1. rewrite unbeaconifyWindows_spec.
  unfold response_calls, response_outcome.
  destruct (completion (clear_calls (windowMap σ) payload) (browser σ))
    as [cleared|e] eqn:Hcompl; unfold completion in Hcompl;
    destruct (find throws (clear_calls (windowMap σ) payload)) as [c|] eqn:Hc;
    try done.
  rewrite until_throw_no_throw by done.
  unfold await at 1. unfold called at 1. rewrite windowsMoved_spec.
  cbn [windowMap browser perform]. rewrite completion_apply_writes.
  apply find_throws_clear_move in Hc as Hc'.
  unfold completion. rewrite Hc'. rewrite perform_app.
  unfold await, await_all, resolve, all_settled.
  by destruct (Promise_all _).
Qed.

Lemma response_outcome_throw wm payload b c :
  find throws (clear_calls wm payload) = Some c →
  response_outcome wm payload b = Rejected (error_of c).
Proof. intros Hc. unfold response_outcome, completion. by rewrite Hc. Qed.

Lemma handleHostMessage_move message payload σ :
  truthy (windows message) = None →
  truthy (window_move message) = Some payload →
  handleHostMessage message σ =
  (perform (until_throw (move_calls (windowMap σ) payload)) σ,
   all_settled (completion (move_calls (windowMap σ) payload) (browser σ))).
Proof.
  intros Hw Hm. unfold handleHostMessage. rewrite Hw, Hm.
  unfold await at 1. unfold called at 1. rewrite windowsMoved_spec.
  destruct (completion _ _) as [moved|e]; [|done].
  unfold await, await_all, resolve, all_settled.
  by destruct (Promise_all _).
Qed.

(** The writes of a sync response whose identities are all known. *)
Lemma response_writes wm payload :
  (∀ u, u ∈ JsMap.keys payload → is_Some (JsMap.get wm u)) →
  ∀ w wr,
    (w, wr) ∈ response_calls wm payload ≫= writes_of ↔
    ∃ u ws, (u, ws) ∈ payload ∧ JsMap.get wm u = Some w ∧
            (wr = SetTitle "" ∨ wr = SetValue "workspace" ws).
Proof.
  intros Hknown w wr. unfold response_calls.
  apply find_throws_known in Hknown as Hc. rewrite Hc.
  apply find_throws_clear_move in Hc as Hc'.
  rewrite until_throw_no_throw by done.
  rewrite bind_app, elem_of_app, !list_elem_of_bind.
  unfold clear_calls, move_calls, JsMap.keys. split.
  - intros [(c & Hwr & Hin)|(c & Hwr & Hin)].
    + apply list_elem_of_fmap in Hin as (u & -> & Hu).
      apply list_elem_of_fmap in Hu as ([u' ws] & -> & Hin). cbn in Hwr.
      destruct (JsMap.get wm u') as [w'|] eqn:Hu'; [|by apply elem_of_nil in Hwr].
      apply list_elem_of_singleton in Hwr as [= -> ->]. exists u', ws. auto.
    + apply list_elem_of_fmap in Hin as ([u ws] & -> & Hin). cbn in Hwr.
      destruct (JsMap.get wm u) as [w'|] eqn:Hu'; [|by apply elem_of_nil in Hwr].
      apply list_elem_of_singleton in Hwr as [= -> ->]. exists u, ws. auto.
  - intros (u & ws & Hin & Hu & [->| ->]).
    + left. exists (windows_update (JsMap.get wm u) ""). split.
      * rewrite Hu. by apply list_elem_of_singleton.
      * apply list_elem_of_fmap. exists u. split; [done|].
        apply list_elem_of_fmap. by exists (u, ws).
    + right. exists (sessions_setWindowValue (JsMap.get wm u) "workspace" (Str ws)).
      split.
      * rewrite Hu. by apply list_elem_of_singleton.
      * apply list_elem_of_fmap. by exists (u, ws).
Qed.
End responses.

(** C1.  Take a sync response whose identities are all in [windowMap], and
    an identity [u] of it with placement [ws] whose window [w] is open and is
    the window of no other identity of the response.  Applying the response
    leaves [w] with the empty title preface and with [ws] as its stored
    ['workspace'] value. *)
Theorem sync_response_applied (message : Notification) (payload : JsMap.t string)
    (σ : World) (u : string) (ws : string) (w : nat) :
  truthy (windows message) = Some payload →
  JsMap.wf payload →
  (∀ u', u' ∈ JsMap.keys payload → is_Some (JsMap.get (windowMap σ) u')) →
  (u, ws) ∈ payload →
  JsMap.get (windowMap σ) u = Some w →
  is_open σ w →
  (∀ u', u' ∈ JsMap.keys payload → JsMap.get (windowMap σ) u' = Some w → u' = u) →
  let σ' := (handleHostMessage message σ).1 in
  title σ' w = Some "" ∧ stored σ' w "workspace" = Some ws.
Proof.
  intros Hm Hwf Hknown Hin Hu [win Hw] Hinj σ'. subst σ'.
  rewrite (handleHostMessage_response message payload σ Hm).
  unfold title, stored. cbn [fst browser perform].
  rewrite lookup_apply_writes, Hw. cbn.
  pose proof (response_writes (windowMap σ) payload Hknown) as HW.
  split.
  - f_equal. apply final_title_agree.
    + intros q Hq. apply HW in Hq as (? & ? & _ & _ & [[= ->]|[=]]). done.
    + exists "". apply HW. exists u, ws. auto.
  - apply final_values_agree.
    + intros v Hv. apply HW in Hv as (u' & ws' & Hin' & Hu' & [[=]|[= ->]]).
      assert (u' = u) as ->.
      { apply Hinj; [|done]. apply list_elem_of_fmap. by exists (u', ws'). }
      apply (elem_of_get payload) in Hin, Hin'; [|done..]. congruence.
    + exists ws. apply HW. exists u, ws. auto.
Qed.

(** C8.  Applying the same sync response twice in a row leaves every
    window as it is after applying it once: the same stored ['workspace']
    value (and every other session value, and the same title preface). *)
Theorem sync_response_idempotent (message : Notification) (σ : World) :
  is_Some (truthy (windows message)) →
  let once := (handleHostMessage message σ).1 in
  let twice := (handleHostMessage message once).1 in
  (∀ w, stored twice w "workspace" = stored once w "workspace")
  ∧ browser twice = browser once.
Proof.
  intros [payload Hm] once twice.
  assert (browser twice = browser once) as Hb.
  { subst twice once.
    rewrite !(handleHostMessage_response message payload _ Hm).
    cbn [fst browser windowMap perform]. apply apply_writes_idem. }
  split; [|done]. intros w. unfold stored. by rewrite Hb.
Qed.

(** ** The calls of every function of the script *)

Section made.
Implicit Types (σ : World) (cs : list Call).

Lemma effects_refl σ : effects [] σ σ.
Proof. split; [by rewrite app_nil_r | done]. Qed.

Lemma effects_trans cs1 cs2 σ1 σ2 σ3 :
  effects cs1 σ1 σ2 → effects cs2 σ2 σ3 → effects (cs1 ++ cs2) σ1 σ3.
Proof.
  intros [Hc1 Hb1] [Hc2 Hb2]. split.
  - by rewrite Hc2, Hc1, app_assoc.
  - by rewrite Hb2, Hb1, bind_app, apply_writes_app.
Qed.

Context (P : Call → Prop).

Lemma made_refl σ : made P σ σ.
Proof. exists []. split; [apply effects_refl | constructor]. Qed.

Lemma made_trans σ1 σ2 σ3 : made P σ1 σ2 → made P σ2 σ3 → made P σ1 σ3.
Proof.
  intros (cs1 & H1 & HP1) (cs2 & H2 & HP2). exists (cs1 ++ cs2).
  split; [by eapply effects_trans | by apply Forall_app].
Qed.

Lemma made_perform cs σ : Forall P cs → made P σ (perform cs σ).
Proof. intros HP. by exists cs. Qed.

Lemma made_set_windowMap m σ σ' : made P σ σ' → made P σ (set_windowMap m σ').
Proof. intros (cs & [Hc Hb] & HP). by exists cs. Qed.

Lemma made_set_globals old new σ σ' :
  made P σ σ' → made P σ (set_globals old new σ').
Proof. intros (cs & [Hc Hb] & HP). by exists cs. Qed.

Lemma made_each {A B} (f : A → Async B) (l : list A) σ :
  (∀ x τ, made P τ (f x τ).1) → made P σ (each f l σ).1.
Proof.
  intros Hf. revert σ. induction l as [|x l IH]; intros σ; [apply made_refl|].
  cbn [each]. specialize (Hf x σ). destruct (f x σ) as [σ1 r].
  specialize (IH σ1). destruct (each f l σ1) as [σ2 rs].
  by eapply made_trans.
Qed.

Lemma made_await {A B} (c : Async A) (k : A → Async B) σ :
  made P σ (c σ).1 → (∀ a τ, made P τ (k a τ).1) → made P σ (await c k σ).1.
Proof.
  intros Hc Hk. unfold await. destruct (c σ) as [σ1 [a|e]]; [|done].
  eapply made_trans; [exact Hc | apply Hk].
Qed.

(** The predicates of interest hold of every call that is not
    [windows.update], and of the update that sets a marker. *)
Context (P_other : ∀ c, no_update c → P c).
Context (P_marker : ∀ w uuid, P (windows_update (Some w) (marker uuid))).

Lemma made_getWindowValue w key σ : made P σ (awaited (getWindowValue w key) σ).1.
Proof.
  unfold awaited. pose proof (getWindowValue_world w key σ) as Hw.
  destruct (getWindowValue w key σ) as [σ1 [r|e]]; cbn in Hw; subst σ1;
    (apply made_perform; constructor; [by apply P_other | constructor]).
Qed.

Lemma made_setWindowValue wo key v σ :
  made P σ (awaited (setWindowValue wo key v) σ).1.
Proof.
  unfold awaited. pose proof (setWindowValue_world wo key v σ) as Hw.
  destruct (setWindowValue wo key v σ) as [σ1 [r|e]]; cbn in Hw; subst σ1;
    (apply made_perform; constructor; [by apply P_other | constructor]).
Qed.

Lemma made_getAll σ : made P σ (getAll σ).1.
Proof.
  rewrite getAll_world. apply made_perform.
  constructor; [by apply P_other | constructor].
Qed.

Lemma made_makeWindowMap_resume x σ : made P σ (makeWindowMap_resume x σ).1.
Proof.
  destruct x as [w [[uuid|]|e]]; unfold makeWindowMap_resume;
    unfold await at 1; try apply made_refl.
  pose proof (randomUUID_world σ) as Hw.
  destruct (randomUUID σ) as [σ1 uuid]. cbn [fst] in Hw. subst σ1.
  eapply made_trans.
  - apply (made_perform [crypto_randomUUID]).
    constructor; [by apply P_other | constructor].
  - apply made_await; [apply made_setWindowValue|]. intros a τ. apply made_refl.
Qed.

Lemma made_makeWindowMap ws σ : made P σ (makeWindowMap ws σ).1.
Proof.
  unfold makeWindowMap.
  pose proof (made_each (fun w => awaited (getWindowValue (id w) "uuid")) ws σ
                (fun w τ => made_getWindowValue (id w) "uuid" τ)) as H1.
  destruct (each _ ws σ) as [σ1 reads].
  pose proof (made_each makeWindowMap_resume (zip ws reads) σ1
                made_makeWindowMap_resume) as H2.
  destruct (each makeWindowMap_resume _ σ1) as [σ2 entries].
  by eapply made_trans.
Qed.

Lemma made_makeWindowsMessage byUUID σ : made P σ (makeWindowsMessage byUUID σ).1.
Proof.
  unfold makeWindowsMessage. rewrite each_getWindowValue. cbn [fst].
  apply made_perform. apply Forall_fmap, Forall_true. intros e.
  by apply P_other.
Qed.

Lemma made_sync_request byUUID σ : made P σ (sync_request byUUID σ).1.
Proof.
  unfold sync_request.
  pose proof (made_makeWindowsMessage byUUID σ) as H1.
  destruct (makeWindowsMessage byUUID σ) as [σ1 message].
  eapply made_trans; [exact H1|].
  unfold await at 1. unfold called. rewrite beaconifyWindows_spec.
  eapply made_trans.
  { apply (made_perform (beacon_calls byUUID)).
    apply Forall_fmap, Forall_true. intros e. apply P_marker. }
  unfold await. destruct message as [message|e]; [|apply made_refl].
  unfold await_all. destruct (Promise_all _); [|apply made_refl].
  cbn [fst]. rewrite postMessage_world. apply made_perform.
  constructor; [by apply P_other | constructor].
Qed.

Lemma made_handleWindowCreated w σ : made P σ (handleWindowCreated w σ).1.
Proof.
  unfold handleWindowCreated. apply made_await; [apply made_makeWindowMap|].
  intros wmap τ. eapply made_trans; [|apply made_sync_request].
  apply made_set_windowMap, made_refl.
Qed.

Lemma made_main σ : made P σ (main σ).1.
Proof.
  unfold main. apply made_await; [apply made_getAll|]. intros ws τ.
  apply made_await; [apply made_makeWindowMap|]. intros wmap τ'.
  eapply made_trans; [|apply made_sync_request].
  apply made_set_windowMap, made_refl.
Qed.

Lemma made_workspaceRenamed_resume payload x σ :
  made P σ (workspaceRenamed_resume payload x σ).1.
Proof.
  destruct x as [w [old|e]]; unfold workspaceRenamed_resume;
    unfold await at 1; [|apply made_refl].
  destruct (obj_get payload (toPropertyKey old)) as [value|].
  - eapply made_trans; [|apply made_setWindowValue].
    apply made_set_globals, made_refl.
  - apply made_set_globals, made_refl.
Qed.

Lemma made_workspaceRenamed payload σ : made P σ (workspaceRenamed payload σ).1.
Proof.
  unfold workspaceRenamed. apply made_await; [apply made_getAll|]. intros ws τ.
  pose proof (made_each (fun w => awaited (getWindowValue (id w) "workspace")) ws τ
                (fun w τ => made_getWindowValue (id w) "workspace" τ)) as H1.
  destruct (each _ ws τ) as [σ1 reads].
  pose proof (made_each (workspaceRenamed_resume payload) (zip ws reads) σ1
                (made_workspaceRenamed_resume payload)) as H2.
  destruct (each (workspaceRenamed_resume payload) _ σ1) as [σ2 rs].
  by eapply made_trans.
Qed.

Lemma made_handleHostMessage_move message payload σ :
  truthy (windows message) = None →
  truthy (window_move message) = Some payload →
  made P σ (handleHostMessage message σ).1.
Proof.
  intros Hw Hm. rewrite (handleHostMessage_move message payload σ Hw Hm).
  apply made_perform.
  assert (∀ cs, Forall no_update cs → Forall P (until_throw cs)) as Hcut.
  { induction 1 as [|c cs Hc _ IH]; [constructor|]. cbn.
    constructor; [by apply P_other|]. destruct (throws c); [constructor|done]. }
  apply Hcut. unfold move_calls. apply Forall_fmap, Forall_true. done.
Qed.

(** Every handler but the one of a sync response. *)
Lemma made_handler e σ : ¬ is_sync_response e → made P σ (handler e σ).1.
Proof.
  intros He. destruct e as [|w|message]; cbn [handler].
  - apply made_main.
  - apply made_handleWindowCreated.
  - cbn in He. destruct (truthy (windows message)) as [payload|] eqn:Hw.
    { exfalso. apply He. by eexists. }
    destruct (truthy (window_move message)) as [payload|] eqn:Hm.
    { by eapply made_handleHostMessage_move. }
    unfold handleHostMessage. rewrite Hw, Hm.
    destruct (truthy (workspace_rename message)) as [payload|].
    + apply made_workspaceRenamed.
    + apply made_refl.
Qed.

Lemma made_run_quiet es σ :
  Forall (fun e => ¬ is_sync_response e) es → made P σ (run es σ).
Proof.
  intros Hes. revert σ.
  induction Hes as [|e es He _ IH]; intros σ; [apply made_refl|].
  cbn. eapply made_trans; [by apply made_handler | apply IH].
Qed.

(** With the update that clears a title, the handler of a sync response
    as well. *)
Context (P_clear : ∀ wo, P (windows_update wo "")).

Lemma made_handler_any e σ : made P σ (handler e σ).1.
Proof.
  destruct e as [|w|message]; try (apply made_handler; cbn; tauto).
  cbn [handler]. destruct (truthy (windows message)) as [payload|] eqn:Hw.
  - rewrite (handleHostMessage_response message payload σ Hw).
    apply made_perform.
    assert (∀ cs, Forall P cs → Forall P (until_throw cs)) as Hcut.
    { induction 1 as [|c cs Hc _ IH]; [constructor|]. cbn.
      constructor; [done|]. destruct (throws c); [constructor|done]. }
    assert (Forall P (clear_calls (windowMap σ) payload)) as Hclear.
    { unfold clear_calls. apply Forall_fmap, Forall_true. intros u. apply P_clear. }
    assert (Forall P (move_calls (windowMap σ) payload)) as Hmove.
    { unfold move_calls. apply Forall_fmap, Forall_true. intros u.
      by apply P_other. }
    unfold response_calls. destruct (find throws _); [by apply Hcut|].
    apply Forall_app. split; [done | by apply Hcut].
  - apply (made_handler (Message message)). cbn. rewrite Hw. by intros [? [=]].
Qed.

Lemma made_run es σ : made P σ (run es σ).
Proof.
  revert σ. induction es as [|e es IH]; intros σ; [apply made_refl|].
  cbn. eapply made_trans; [apply made_handler_any | apply IH].
Qed.
End made.

(** ** Unknown identities *)

Section unknown.
Implicit Types (σ : World) (cs : list Call).

Lemma until_throw_app cs c cs' :
  find throws cs = None → throws c = true →
  until_throw (cs ++ c :: cs') = cs ++ [c] ∧ find throws (cs ++ c :: cs') = Some c.
Proof.
  intros Hcs Hc. induction cs as [|c0 cs IH]; cbn in *.
  - by rewrite Hc.
  - destruct (throws c0); [done|]. destruct (IH Hcs) as [-> ->]. done.
Qed.

Lemma clear_calls_app wm (pre post : JsMap.t string) :
  clear_calls wm (pre ++ post) = clear_calls wm pre ++ clear_calls wm post.
Proof. unfold clear_calls, JsMap.keys. by rewrite !fmap_app. Qed.

Lemma move_calls_app wm (pre post : JsMap.t string) :
  move_calls wm (pre ++ post) = move_calls wm pre ++ move_calls wm post.
Proof. unfold move_calls. by rewrite !fmap_app. Qed.

Lemma stored_perform_updates cs σ w key :
  Forall (fun c => match c with windows_update _ _ => True | _ => False end) cs →
  stored (perform cs σ) w key = stored σ w key.
Proof.
  intros Hcs. unfold stored. cbn [browser perform].
  rewrite lookup_apply_writes. destruct (browser σ !! w) as [win|]; [|done].
  cbn. apply final_values_untouched. intros v Hin.
  apply list_elem_of_bind in Hin as (c & Hin & Hc).
  rewrite Forall_forall in Hcs. specialize (Hcs c Hc).
  destruct c as [| | [?|] ?| | |]; try done; cbn in Hin.
  - apply list_elem_of_singleton in Hin. done.
  - by apply elem_of_nil in Hin.
Qed.
End unknown.

(** C3, as the script has it.  An identity that is not in [windowMap] is
    not skipped: [Map.get] gives [undefined], the script passes it on as the
    window id, and the call throws.  So when [u] is the first unknown identity
    of the payload, the handler's promise is rejected.  Before that, the
    entries ahead of [u] had their call made (the title cleared for a sync
    response, the workspace stored for a move notification); the call for [u]
    writes nothing, and no call is made for the entries after [u].  For a
    sync response this means that no session value is stored at all. *)
Theorem unknown_identity_throws (message : Notification) (σ : World)
    (pre post : JsMap.t string) (u ws : string) :
  (∀ u', u' ∈ JsMap.keys pre → is_Some (JsMap.get (windowMap σ) u')) →
  JsMap.get (windowMap σ) u = None →
  let payload := pre ++ (u, ws) :: post in
  (truthy (windows message) = Some payload →
   handleHostMessage message σ =
     (perform (clear_calls (windowMap σ) pre ++ [windows_update None ""]) σ,
      Rejected (IncorrectArgumentTypes "windows.update"))
   ∧ ∀ w key, stored (handleHostMessage message σ).1 w key = stored σ w key)
  ∧ (truthy (windows message) = None →
     truthy (window_move message) = Some payload →
     handleHostMessage message σ =
       (perform (move_calls (windowMap σ) pre
                 ++ [sessions_setWindowValue None "workspace" (Str ws)]) σ,
        Rejected (IncorrectArgumentTypes "sessions.setWindowValue"))).
Proof.
  intros Hpre Hu payload.
  apply find_throws_known in Hpre as Hclear.
  apply find_throws_clear_move in Hclear as Hmove.
  split.
  - intros Hm.
    assert (handleHostMessage message σ =
            (perform (clear_calls (windowMap σ) pre ++ [windows_update None ""]) σ,
             Rejected (IncorrectArgumentTypes "windows.update"))) as ->.
    { rewrite (handleHostMessage_response message payload σ Hm).
      destruct (until_throw_app (clear_calls (windowMap σ) pre)
                  (windows_update None "") (clear_calls (windowMap σ) post)
                  Hclear eq_refl) as [Hcut Hfind].
      assert (clear_calls (windowMap σ) payload =
              clear_calls (windowMap σ) pre
              ++ windows_update None "" :: clear_calls (windowMap σ) post) as Heq.
      { subst payload. rewrite clear_calls_app. f_equal.
        unfold clear_calls. cbn. by rewrite Hu. }
      rewrite (response_outcome_throw _ _ _ (windows_update None ""))
        by by rewrite Heq.
      unfold response_calls. by rewrite Heq, Hfind, Hcut. }
    split; [done|]. intros w key. cbn [fst].
    apply stored_perform_updates. apply Forall_app. split.
    + unfold clear_calls. apply Forall_fmap, Forall_true. done.
    + by constructor.
  - intros Hw Hm.
    rewrite (handleHostMessage_move message payload σ Hw Hm).
    set (c := sessions_setWindowValue None "workspace" (Str ws)).
    destruct (until_throw_app (move_calls (windowMap σ) pre) c
                (move_calls (windowMap σ) post) Hmove eq_refl) as [Hcut Hfind].
    assert (move_calls (windowMap σ) payload =
            move_calls (windowMap σ) pre ++ c :: move_calls (windowMap σ) post)
      as Heq.
    { subst payload. rewrite move_calls_app. f_equal.
      unfold move_calls. cbn. by rewrite Hu. }
    rewrite Heq, Hcut. unfold completion. by rewrite Hfind.
Qed.

(** C3 as the specification states it does not hold.  In the example world
    the sync response [{ Z: "7", A: "1" }] names the unknown identity [Z].
    The entry is not ignored: [windows.update] is called with [undefined],
    the handler's promise is rejected, and the entry of the known identity
    [A] is not applied: window 1 keeps its marker and gets no stored
    workspace.  So it is not the case that no error is raised and the entry
    of [A] is applied. *)
Lemma unknown_identity_not_ignored :
  let result := handleHostMessage (sync_response [("Z", "7"); ("A", "1")])
                                  example_world in
  JsMap.get (windowMap example_world) "Z" = None
  ∧ JsMap.get (windowMap example_world) "A" = Some 1
  ∧ result.2 = Rejected (IncorrectArgumentTypes "windows.update")
  ∧ calls result.1 = [windows_update None ""]
  ∧ title result.1 1 = Some "A | "
  ∧ stored result.1 1 "workspace" = None
  ∧ ¬ (result.2 = Fulfilled tt
       ∧ title result.1 1 = Some ""
       ∧ stored result.1 1 "workspace" = Some "1").
Proof. vm_compute. split_and!; try done. by intros [[=] _]. Qed.

(** ** Markers *)

Lemma final_title_cases (ws : list (nat * Write)) (w : nat) (t : string) :
  ((∀ q, (w, SetTitle q) ∉ ws) ∧ final_title ws w t = t)
  ∨ ∃ q, (w, SetTitle q) ∈ ws ∧ final_title ws w t = q.
Proof.
  induction ws as [|[i wr] ws IH] using rev_ind.
  - left. split; [intros q; apply not_elem_of_nil | done].
  - rewrite final_title_app. cbn.
    assert (∀ q, (w, SetTitle q) ∈ ws → (w, SetTitle q) ∈ ws ++ [(i, wr)]) as Hin.
    { intros q Hq. apply elem_of_app. by left. }
    destruct (decide (i = w)) as [->|Hne]; [destruct wr as [p|k v]|].
    + right. exists p. split; [|done]. apply elem_of_app. right.
      by apply list_elem_of_singleton.
    + destruct IH as [[Hno Ht]|(q & Hq & Ht)]; [left|right; eauto].
      split; [|done]. intros q Hq. apply elem_of_app in Hq as [Hq|Hq].
      * by apply (Hno q).
      * by apply list_elem_of_singleton in Hq.
    + destruct IH as [[Hno Ht]|(q & Hq & Ht)]; [left|right; eauto].
      split; [|done]. intros q Hq. apply elem_of_app in Hq as [Hq|Hq].
      * by apply (Hno q).
      * apply list_elem_of_singleton in Hq. congruence.
Qed.

Lemma beacon_writes (byUUID : JsMap.t nat) (w : nat) (wr : Write) :
  (w, wr) ∈ beacon_calls byUUID ≫= writes_of ↔
  ∃ u, (u, w) ∈ byUUID ∧ wr = SetTitle (marker u).
Proof.
  rewrite list_elem_of_bind. unfold beacon_calls. split.
  - intros (c & Hwr & Hc). apply list_elem_of_fmap in Hc as ([u w'] & -> & Hin).
    cbn in Hwr. apply list_elem_of_singleton in Hwr as [= -> ->]. eauto.
  - intros (u & Hin & ->). exists (windows_update (Some w) (marker u)). split.
    + by apply list_elem_of_singleton.
    + apply list_elem_of_fmap. by exists (u, w).
Qed.

Lemma marker_nonempty (uuid : string) : marker uuid ≠ "".
Proof. unfold marker. by destruct uuid. Qed.

(** C6.  [beaconifyWindows] leaves every open window of [byUUID] with the
    title preface [uuid ++ " | "], for [uuid] an identity that [byUUID] maps
    to that window.  [unbeaconifyWindows], when the identities of the payload
    are known, leaves the window of each with the empty title preface.  And
    whatever events the script handles, every title preface it passes to
    [windows.update] is a marker or the empty string. *)
Theorem marker_format :
  (∀ (byUUID : JsMap.t nat) σ u w,
     (u, w) ∈ byUUID → is_open σ w →
     ∃ u', (u', w) ∈ byUUID ∧
           title (beaconifyWindows byUUID σ).1 w = Some (u' ++ " | ")%string)
  ∧ (∀ (payload : JsMap.t string) σ u w,
       (∀ u', u' ∈ JsMap.keys payload → is_Some (JsMap.get (windowMap σ) u')) →
       u ∈ JsMap.keys payload → JsMap.get (windowMap σ) u = Some w → is_open σ w →
       title (unbeaconifyWindows payload σ).1 w = Some "")
  ∧ (∀ es σ, ∃ cs, calls (run es σ) = calls σ ++ cs ∧ Forall writes_marker cs).
Proof.
  split_and!.
  - intros byUUID σ u w Hin [win Hw]. rewrite beaconifyWindows_spec.
    unfold title. cbn [fst browser perform]. rewrite lookup_apply_writes, Hw. cbn.
    destruct (final_title_cases (beacon_calls byUUID ≫= writes_of) w
                (titlePreface win)) as [[Hno _]|(q & Hq & ->)].
    + exfalso. apply (Hno (marker u)). apply beacon_writes. eauto.
    + apply beacon_writes in Hq as (u' & Hin' & [= ->]). eauto.
  - intros payload σ u w Hknown Hu Hget [win Hw]. rewrite unbeaconifyWindows_spec.
    apply find_throws_known in Hknown as Hc.
    rewrite until_throw_no_throw by done.
    unfold title. cbn [fst browser perform]. rewrite lookup_apply_writes, Hw. cbn.
    f_equal. apply final_title_agree.
    + intros q Hq. apply list_elem_of_bind in Hq as (c & Hq & Hin).
      apply list_elem_of_fmap in Hin as (u' & -> & _). cbn in Hq.
      destruct (JsMap.get (windowMap σ) u'); [|by apply elem_of_nil in Hq].
      by apply list_elem_of_singleton in Hq as [= _ ->].
    + exists "". apply list_elem_of_bind.
      exists (windows_update (JsMap.get (windowMap σ) u) ""). split.
      * rewrite Hget. by apply list_elem_of_singleton.
      * apply list_elem_of_fmap. eauto.
  - intros es σ. destruct (made_run writes_marker) with (es := es) (σ := σ)
      as (cs & [Hcalls _] & Hcs).
    + by intros [].
    + intros w uuid. right. eauto.
    + intros wo. by left.
    + eauto.
Qed.

(** ** Renamed workspaces *)

Section rename.
Implicit Types (σ : World) (payload : JsMap.t string).

Lemma zip_fmap_r {A B} (f : A → B) (l : list A) :
  zip l (f <$> l) = (fun x => (x, f x)) <$> l.
Proof. induction l as [|x l IH]; [done|]. cbn. by rewrite IH. Qed.

Lemma each_rename_resume payload (l : list (WindowRef * option string)) σ :
  effects (rename_calls payload l) σ
    (each (workspaceRenamed_resume payload)
          ((fun x => (x.1, Fulfilled x.2)) <$> l) σ).1.
Proof.
  revert σ. induction l as [|[w old] l IH]; intros σ; [apply effects_refl|].
  cbn [fmap list_fmap each fst snd].
  set (f := workspaceRenamed_resume payload).
  assert (effects
            (match obj_get payload (toPropertyKey old) with
             | Some value => [sessions_setWindowValue (Some (id w)) "workspace" value]
             | None => []
             end) σ (f (w, Fulfilled old) σ).1) as Hstep.
  { subst f. unfold workspaceRenamed_resume, await. cbn [fst snd].
    destruct (obj_get payload (toPropertyKey old)) as [value|].
    - unfold awaited. rewrite setWindowValue_spec.
      destruct (throws _); apply (perform_effects [_] (set_globals _ _ σ)).
    - destruct (effects_refl σ) as [Hc Hb]. by split. }
  destruct (f (w, Fulfilled old) σ) as [σ1 r]. specialize (IH σ1).
  change (list_fmap _ _ ?g l) with (g <$> l). fold f in IH.
  destruct (each f _ σ1) as [σ2 rs].
  change (rename_calls payload ((w, old) :: l))
    with (match obj_get payload (toPropertyKey old) with
          | Some value => [sessions_setWindowValue (Some (id w)) "workspace" value]
          | None => []
          end ++ rename_calls payload l).
  by eapply effects_trans.
Qed.

(** The world after [workspaceRenamed]: the windows took the writes of
    [rename_calls] for the stored workspaces of the open windows. *)
Lemma workspaceRenamed_browser payload σ :
  browser (workspaceRenamed payload σ).1 =
  apply_writes
    (rename_calls payload
       ((fun e => ({| id := e.1 |}, values e.2 !! "workspace"))
          <$> map_to_list (browser σ)) ≫= writes_of)
    (browser σ).
Proof.
  unfold workspaceRenamed, await. rewrite (surjective_pairing (getAll σ)).
  rewrite getAll_world. cbn [snd getAll].
  rewrite each_getWindowValue, zip_fmap_r.
  set (σ1 := perform [windows_getAll] σ).
  set (reads := (fun x : WindowRef => sessions_getWindowValue (id x) "workspace")
                  <$> _).
  set (l := (fun e : nat * Window => ({| id := e.1 |}, values e.2 !! "workspace"))
              <$> map_to_list (browser σ)).
  assert ((fun x : WindowRef => (x, read_of σ1 (id x) "workspace"))
            <$> ((fun e : nat * Window => {| id := e.1 |}) <$> map_to_list (browser σ))
          = (fun x : WindowRef * option string => (x.1, Fulfilled x.2)) <$> l) as ->.
  { subst l. rewrite <- !list_fmap_compose. apply list_fmap_ext.
    intros i [w win] Hin. cbn. f_equal.
    apply list_elem_of_lookup_2, elem_of_map_to_list in Hin.
    unfold read_of. cbn. by rewrite Hin. }
  pose proof (each_rename_resume payload l (perform reads σ1)) as [_ Hb].
  destruct (each _ _ (perform reads σ1)) as [σ2 rs]. cbn [fst] in *.
  rewrite Hb. cbn [browser perform]. f_equal.
  assert (reads ≫= writes_of = []) as ->; [|done].
  subst reads. generalize (map_to_list (browser σ)).
  intros l'. induction l' as [|e l' IH]; [done|]. cbn. apply IH.
Qed.

Lemma rename_writes payload (b : gmap nat Window) w wr :
  (w, wr) ∈ rename_calls payload
              ((fun e => ({| id := e.1 |}, values e.2 !! "workspace"))
                 <$> map_to_list b) ≫= writes_of ↔
  ∃ win new, b !! w = Some win
             ∧ obj_get payload (toPropertyKey (values win !! "workspace"))
               = Some (Str new)
             ∧ wr = SetValue "workspace" new.
Proof.
  rewrite list_elem_of_bind. unfold rename_calls. split.
  - intros (c & Hwr & Hc). apply list_elem_of_bind in Hc as ([w' old] & Hc & Hin).
    apply list_elem_of_fmap in Hin as ([i win] & [= -> ->] & Hin).
    apply elem_of_map_to_list in Hin. cbn in Hc.
    destruct (obj_get payload _) as [[new|name]|] eqn:Hget;
      [| |by apply elem_of_nil in Hc];
      apply list_elem_of_singleton in Hc as ->; cbn in Hwr.
    + apply list_elem_of_singleton in Hwr as [= -> ->]. eauto.
    + by apply elem_of_nil in Hwr.
  - intros (win & new & Hw & Hget & ->).
    exists (sessions_setWindowValue (Some w) "workspace" (Str new)). split.
    + by apply list_elem_of_singleton.
    + apply list_elem_of_bind.
      exists ({| id := w |}, values win !! "workspace"). split.
      * cbn. rewrite Hget. by apply list_elem_of_singleton.
      * apply list_elem_of_fmap. exists (w, win). split; [done|].
        by apply elem_of_map_to_list.
Qed.

(** What [workspaceRenamed] leaves as the stored workspace of an open
    window: the name the payload gives for the old one, read as a property
    key; the old one when the payload gives nothing (or nothing that can be
    stored). *)
Lemma workspaceRenamed_stored payload σ w :
  is_open σ w →
  stored (workspaceRenamed payload σ).1 w "workspace" =
  match obj_get payload (toPropertyKey (stored σ w "workspace")) with
  | Some (Str new) => Some new
  | _ => stored σ w "workspace"
  end.
Proof.
  intros [win Hw]. unfold stored at 1. rewrite workspaceRenamed_browser.
  rewrite lookup_apply_writes, Hw. cbn.
  pose proof (rename_writes payload (browser σ) w) as HW.
  unfold stored. rewrite Hw. cbn.
  destruct (obj_get payload (toPropertyKey (values win !! "workspace")))
    as [[new|name]|] eqn:Hget.
  - apply final_values_agree.
    + intros v Hv. apply HW in Hv as (win' & new' & Hw' & Hget' & [= ->]).
      congruence.
    + exists new. apply HW. eauto.
  - apply final_values_untouched. intros v Hv.
    apply HW in Hv as (win' & new' & Hw' & Hget' & _). congruence.
  - apply final_values_untouched. intros v Hv.
    apply HW in Hv as (win' & new' & Hw' & Hget' & _). congruence.
Qed.

(** Rename propagation, where it holds.  After the rename notification
    [{ old: new }], an open window whose stored workspace is [old] has
    [new]; a window with another stored workspace keeps it, as long as
    that workspace is not named like a member of [Object.prototype]; a
    window without a stored workspace stays without one unless [old] is
    the string ["undefined"]. *)
Lemma rename_propagation message σ (old new : string) w :
  truthy (windows message) = None →
  truthy (window_move message) = None →
  truthy (workspace_rename message) = Some [(old, new)] →
  is_open σ w →
  let σ' := (handleHostMessage message σ).1 in
  (stored σ w "workspace" = Some old → stored σ' w "workspace" = Some new)
  ∧ (∀ other, stored σ w "workspace" = Some other → other ≠ old →
              other ∉ Object_prototype →
              stored σ' w "workspace" = Some other)
  ∧ (stored σ w "workspace" = None → old ≠ "undefined" →
     stored σ' w "workspace" = None).
Proof.
  intros H1 H2 H3 Hopen σ'. subst σ'. unfold handleHostMessage.
  rewrite H1, H2, H3. rewrite workspaceRenamed_stored by done.
  unfold obj_get. cbn [JsMap.get]. split_and!.
  - intros ->. cbn. by rewrite decide_True.
  - intros other -> Hne Hproto. cbn. rewrite decide_False by done.
    by rewrite bool_decide_false.
  - intros -> Hne. cbn. by rewrite decide_False.
Qed.
End rename.

(** C2, where the script departs from it.  In the example world window 3
    has no stored workspace.  The rename of the workspace called
    ["undefined"] to ["9"] gives it the stored workspace ["9"]: the script
    reads [payload[oldWorkspace]] with [oldWorkspace] undefined, which is the
    property ["undefined"] of the payload.  (Window 2, on workspace ["2"],
    is left alone.) *)
Theorem rename_of_undefined_reaches_unplaced_windows :
  let message := rename_notification [("undefined", "9")] in
  let σ' := (handleHostMessage message example_world).1 in
  stored example_world 3 "workspace" = None
  ∧ stored σ' 3 "workspace" = Some "9"
  ∧ stored σ' 2 "workspace" = Some "2".
Proof. vm_compute. done. Qed.

(** ** Identities: [makeWindowMap] *)

Section identities.
Implicit Types (σ : World) (l : list (WindowRef * option string))
  (a : list (string * nat * bool)).

Lemma randomUUID_spec σ :
  randomUUID σ = (perform [crypto_randomUUID] σ, uuids σ (drawn σ)).
Proof.
  rewrite (surjective_pairing (randomUUID σ)). by rewrite randomUUID_world.
Qed.

Lemma is_open_perform cs σ w : is_open (perform cs σ) w ↔ is_open σ w.
Proof. unfold is_open. cbn. apply apply_writes_is_Some. Qed.

(** The callbacks of [makeWindowMap] after their reads, for open windows. *)
Lemma each_makeWindowMap_resume l σ :
  (∀ x, x ∈ l → is_open σ (id x.1)) →
  each makeWindowMap_resume ((fun x => (x.1, Fulfilled x.2)) <$> l) σ =
  (perform (assign_calls (assignments (uuids σ) (drawn σ) l)) σ,
   Fulfilled <$> ((fun x => x.1) <$> assignments (uuids σ) (drawn σ) l)).
Proof.
  revert σ. induction l as [|[w [uuid|]] l IH]; intros σ Hopen.
  - cbn. by rewrite perform_nil.
  - cbn [fmap list_fmap each fst snd assignments].
    change (list_fmap _ _ ?g l) with (g <$> l).
    unfold makeWindowMap_resume at 1. unfold await, resolve.
    rewrite IH by (intros x Hx; apply Hopen, elem_of_cons; by right).
    done.
  - cbn [fmap list_fmap each fst snd assignments].
    change (list_fmap _ _ ?g l) with (g <$> l).
    unfold makeWindowMap_resume at 1. unfold await at 1.
    rewrite randomUUID_spec. unfold await, awaited, resolve.
    rewrite setWindowValue_spec. cbn [throws answer browser perform].
    assert (is_open σ (id w)) as [win Hw].
    { apply (Hopen (w, None)). apply elem_of_cons. by left. }
    rewrite lookup_apply_writes, Hw. cbn [fmap option_fmap option_map].
    rewrite perform_app.
    rewrite IH.
    2:{ intros x Hx. apply is_open_perform. apply Hopen, elem_of_cons. by right. }
    rewrite perform_app. cbn [uuids drawn perform app].
    assert (∀ c, length (filter is_randomUUID
                                [crypto_randomUUID;
                                 sessions_setWindowValue (Some (id w)) "uuid" c])
                 = 1) as -> by done.
    by rewrite Nat.add_1_r.
Qed.

Lemma makeWindowMap_spec ws σ :
  (∀ w, w ∈ ws → is_open σ (id w)) →
  let l := (fun w => (w, stored σ (id w) "uuid")) <$> ws in
  let a := assignments (uuids σ) (drawn σ) l in
  makeWindowMap ws σ =
  (perform (((fun w => sessions_getWindowValue (id w) "uuid") <$> ws)
            ++ assign_calls a) σ,
   Fulfilled (JsMap.of_entries ((fun x => x.1) <$> a))).
Proof.
  intros Hopen l a. unfold makeWindowMap.
  rewrite each_getWindowValue, zip_fmap_r.
  assert ((fun w : WindowRef => (w, read_of σ (id w) "uuid")) <$> ws
          = (fun x : WindowRef * option string => (x.1, Fulfilled x.2)) <$> l)
    as ->.
  { subst l. rewrite <- list_fmap_compose. apply list_fmap_ext.
    intros i w Hw. cbn. f_equal. apply read_of_open, Hopen.
    by eapply list_elem_of_lookup_2. }
  rewrite each_makeWindowMap_resume.
  2:{ intros x Hx. apply is_open_perform. subst l.
      apply list_elem_of_fmap in Hx as (w & -> & Hw). by apply Hopen. }
  rewrite perform_app. cbn [uuids drawn perform].
  replace (drawn σ + _) with (drawn σ).
  2:{ assert (filter is_randomUUID
                ((fun w : WindowRef => sessions_getWindowValue (id w) "uuid") <$> ws)
              = []) as ->; [|cbn; lia].
      induction ws as [|w ws IH]; [done|]. cbn. apply IH.
      intros w' Hw'. apply Hopen, elem_of_cons. by right. }
  by rewrite Promise_all_Fulfilled.
Qed.

Lemma assign_calls_cons x a :
  assign_calls (x :: a) =
  (if x.2 then [crypto_randomUUID;
                sessions_setWindowValue (Some x.1.2) "uuid" (Str x.1.1)]
   else []) ++ assign_calls a.
Proof. done. Qed.

Lemma assign_writes a i wr :
  (i, wr) ∈ assign_calls a ≫= writes_of ↔
  ∃ u, (u, i, true) ∈ a ∧ wr = SetValue "uuid" u.
Proof.
  rewrite list_elem_of_bind. unfold assign_calls. split.
  - intros (c & Hwr & Hc). apply list_elem_of_bind in Hc as ([[u j] []] & Hc & Hin);
      cbn in Hc; [|by apply elem_of_nil in Hc].
    apply elem_of_cons in Hc as [->|Hc]; [by apply elem_of_nil in Hwr|].
    apply list_elem_of_singleton in Hc as ->. cbn in Hwr.
    apply list_elem_of_singleton in Hwr as [= -> ->]. eauto.
  - intros (u & Hin & ->).
    exists (sessions_setWindowValue (Some i) "uuid" (Str u)). split.
    + by apply list_elem_of_singleton.
    + apply list_elem_of_bind. exists (u, i, true). split; [|done].
      cbn. apply elem_of_cons. right. by apply list_elem_of_singleton.
Qed.

Lemma reads_no_writes (ws : list WindowRef) key cs :
  (((fun w => sessions_getWindowValue (id w) key) <$> ws) ++ cs) ≫= writes_of
  = cs ≫= writes_of.
Proof. induction ws as [|w ws IH]; [done|]. cbn. apply IH. Qed.

Context (gen : nat → string).

Lemma assignments_ids n l :
  (fun x => x.1.2) <$> assignments gen n l = (fun x => id x.1) <$> l.
Proof.
  revert n. induction l as [|[w [u|]] l IH]; intros n; [done|..];
    cbn; by rewrite IH.
Qed.

Lemma assignments_old n l u i :
  (u, i, false) ∈ assignments gen n l → ∃ w, (w, Some u) ∈ l ∧ i = id w.
Proof.
  revert n. induction l as [|[w [u'|]] l IH]; intros n Hin; cbn in Hin.
  - by apply elem_of_nil in Hin.
  - apply elem_of_cons in Hin as [[= -> ->]|Hin].
    + exists w. split; [apply elem_of_cons; by left | done].
    + destruct (IH _ Hin) as (w' & Hw' & ->). exists w'.
      split; [apply elem_of_cons; by right | done].
  - apply elem_of_cons in Hin as [[=]|Hin].
    destruct (IH _ Hin) as (w' & Hw' & ->). exists w'.
    split; [apply elem_of_cons; by right | done].
Qed.

Lemma assignments_new n l u i :
  (u, i, true) ∈ assignments gen n l →
  ∃ w k, (w, None) ∈ l ∧ i = id w ∧ u = gen k ∧
         n ≤ k < n + length (filter is_randomUUID (assign_calls (assignments gen n l))).
Proof.
  revert n. induction l as [|[w [u'|]] l IH]; intros n Hin; cbn [assignments] in *.
  - by apply elem_of_nil in Hin.
  - rewrite assign_calls_cons. cbn [snd app].
    apply elem_of_cons in Hin as [[=]|Hin].
    destruct (IH _ Hin) as (w' & k & Hw' & -> & -> & Hk). exists w', k.
    split_and!; [apply elem_of_cons; by right | done | done | lia | lia].
  - rewrite assign_calls_cons. cbn [snd app]. rewrite filter_cons.
    cbn [is_randomUUID]. rewrite decide_True by done. rewrite filter_cons.
    cbn [is_randomUUID]. rewrite decide_False by (intros []).
    cbn [length].
    apply elem_of_cons in Hin as [[= -> ->]|Hin].
    + exists w, n. split_and!; [apply elem_of_cons; by left | done.. | lia | lia].
    + destruct (IH _ Hin) as (w' & k & Hw' & -> & -> & Hk). exists w', k.
      split_and!; [apply elem_of_cons; by right | done.. | lia | lia].
Qed.

Lemma assignments_drawn n l :
  length (filter is_randomUUID (assign_calls (assignments gen n l))) =
  length (filter (fun x => x.2 = None) l).
Proof.
  revert n. induction l as [|[w [u|]] l IH]; intros n; [done|..];
    cbn [assignments]; rewrite assign_calls_cons; cbn [snd app].
  - rewrite filter_cons_False by done. apply IH.
  - rewrite filter_cons. cbn [is_randomUUID]. rewrite decide_True by done.
    rewrite filter_cons. cbn [is_randomUUID]. rewrite decide_False by (intros []).
    rewrite (filter_cons_True (fun x : WindowRef * option string => x.2 = None))
      by done.
    cbn [length]. by rewrite IH.
Qed.

Lemma assignments_elem n l w old :
  (w, old) ∈ l →
  ∃ u fresh, (u, id w, fresh) ∈ assignments gen n l ∧
             match old with
             | Some u' => u = u' ∧ fresh = false
             | None => fresh = true
             end.
Proof.
  revert n. induction l as [|[w' [u'|]] l IH]; intros n Hin.
  - by apply elem_of_nil in Hin.
  - apply elem_of_cons in Hin as [[= -> ->]|Hin].
    + exists u', false. split; [apply elem_of_cons; by left | done].
    + destruct (IH n Hin) as (u & fresh & Ha & Hold). exists u, fresh.
      split; [apply elem_of_cons; by right | done].
  - apply elem_of_cons in Hin as [[= -> ->]|Hin].
    + exists (gen n), true. split; [apply elem_of_cons; by left | done].
    + destruct (IH (S n) Hin) as (u & fresh & Ha & Hold). exists u, fresh.
      split; [apply elem_of_cons; by right | done].
Qed.

Lemma NoDup_fmap_eq {A B} (f : A → B) (xs : list A) x y :
  NoDup (f <$> xs) → x ∈ xs → y ∈ xs → f x = f y → x = y.
Proof.
  induction xs as [|z xs IH]; intros Hnd Hx Hy Hf.
  - by apply elem_of_nil in Hx.
  - rewrite fmap_cons in Hnd. apply NoDup_cons in Hnd as [Hz Hnd].
    apply elem_of_cons in Hx as [->|Hx]; apply elem_of_cons in Hy as [->|Hy].
    + done.
    + exfalso. apply Hz. rewrite Hf. by apply list_elem_of_fmap_2.
    + exfalso. apply Hz. rewrite <- Hf. by apply list_elem_of_fmap_2.
    + by apply IH.
Qed.

(** Identities are unique when the stored ones are and the generator
    neither repeats itself nor returns a stored one. *)
Lemma assignments_keys_NoDup n l :
  NoDup ((fun x => id x.1) <$> l) →
  (∀ i j, gen i = gen j → i = j) →
  (∀ w u k, (w, Some u) ∈ l → u ≠ gen k) →
  (∀ w1 w2 u, (w1, Some u) ∈ l → (w2, Some u) ∈ l → id w1 = id w2) →
  NoDup ((fun x => x.1.1) <$> assignments gen n l).
Proof.
  intros Hnd Hinj. revert n.
  induction l as [|[w [u|]] l IH]; intros n Hfresh Hdist; cbn [assignments].
  - constructor.
  - rewrite fmap_cons in Hnd. apply NoDup_cons in Hnd as [Hw Hnd].
    rewrite fmap_cons. apply NoDup_cons. split.
    + intros Hin. apply list_elem_of_fmap in Hin as ([[u' i] f] & Hu & Hin).
      cbn in Hu. subst u'. destruct f.
      * apply assignments_new in Hin as (w' & k & Hw' & _ & Hk & _).
        apply (Hfresh w u k); [apply elem_of_cons; by left | done].
      * apply assignments_old in Hin as (w' & Hw' & ->).
        apply Hw. cbn. rewrite (Hdist w w' u).
        -- apply list_elem_of_fmap. by exists (w', Some u).
        -- apply elem_of_cons; by left.
        -- apply elem_of_cons; by right.
    + apply IH; [done|..].
      * intros w' u' k Hin. apply (Hfresh w'). apply elem_of_cons; by right.
      * intros w1 w2 u' H1 H2. apply (Hdist w1 w2 u'); apply elem_of_cons; by right.
  - rewrite fmap_cons in Hnd. apply NoDup_cons in Hnd as [Hw Hnd].
    rewrite fmap_cons. apply NoDup_cons. split.
    + intros Hin. apply list_elem_of_fmap in Hin as ([[u' i] f] & Hu & Hin).
      cbn in Hu. destruct f.
      * apply assignments_new in Hin as (w' & k & Hw' & _ & -> & Hk & _).
        apply Hinj in Hu. lia.
      * apply assignments_old in Hin as (w' & Hw' & ->).
        apply (Hfresh w' u' n); [apply elem_of_cons; by right | done].
    + apply IH; [done|..].
      * intros w' u' k Hin. apply (Hfresh w'). apply elem_of_cons; by right.
      * intros w1 w2 u' H1 H2. apply (Hdist w1 w2 u'); apply elem_of_cons; by right.
Qed.
End identities.

Lemma final_values_cases (ws : list (nat * Write)) (w : nat)
    (m : gmap string string) (k : string) :
  final_values ws w m !! k = m !! k ∨ ∃ v, (w, SetValue k v) ∈ ws.
Proof.
  induction ws as [|[i wr] ws IH] using rev_ind; [by left|].
  destruct IH as [IH|[v Hv]].
  2:{ right. exists v. apply elem_of_app. by left. }
  rewrite final_values_app. cbn.
  destruct (decide (i = w)) as [->|Hne]; [|by left].
  destruct wr as [p|k' v']; [by left|].
  destruct (decide (k' = k)) as [->|Hk].
  - right. exists v'. apply elem_of_app. right. by apply list_elem_of_singleton.
  - left. by rewrite lookup_insert_ne.
Qed.

(** C4.  For distinct open windows [ws], [makeWindowMap] fulfils with a map
    [wmap], and:
    - a window that has a stored ['uuid'] keeps it;
    - a window of [ws] that has none gets one of the UUIDs that
      [randomUUID] returns during the call, and it is stored; as many UUIDs
      are drawn as [ws] has windows without one;
    - nothing else is written: any other session value and every title
      stay as they were;
    - when identities are unique (the stored ones differ from window to
      window, and [randomUUID] neither repeats itself nor returns a stored
      one), [wmap] has one entry per window of [ws], in the order of [ws],
      which maps the window's stored identity to the window's id. *)
Theorem makeWindowMap_identities (ws : list WindowRef) (σ : World) :
  NoDup (id <$> ws) →
  (∀ w, w ∈ ws → is_open σ (id w)) →
  let σ' := (makeWindowMap ws σ).1 in
  ∃ wmap, (makeWindowMap ws σ).2 = Fulfilled wmap
  ∧ (∀ i u, stored σ i "uuid" = Some u → stored σ' i "uuid" = Some u)
  ∧ (∀ w, w ∈ ws → stored σ (id w) "uuid" = None →
          ∃ n, drawn σ ≤ n < drawn σ' ∧
               stored σ' (id w) "uuid" = Some (uuids σ n))
  ∧ drawn σ' =
    drawn σ + length (filter (fun w => stored σ (id w) "uuid" = None) ws)
  ∧ (∀ i key, stored σ' i key ≠ stored σ i key →
              key = "uuid" ∧ stored σ i "uuid" = None ∧ i ∈ id <$> ws)
  ∧ (∀ i, title σ' i = title σ i)
  ∧ ((∀ i j, uuids σ i = uuids σ j → i = j) →
     (∀ w n, w ∈ ws → stored σ (id w) "uuid" ≠ Some (uuids σ n)) →
     (∀ w1 w2 u, w1 ∈ ws → w2 ∈ ws →
                 stored σ (id w1) "uuid" = Some u →
                 stored σ (id w2) "uuid" = Some u → id w1 = id w2) →
     JsMap.wf wmap
     ∧ wmap.*2 = id <$> ws
     ∧ ∀ w, w ∈ ws → ∃ u, stored σ' (id w) "uuid" = Some u ∧
                          JsMap.get wmap u = Some (id w)).
Proof.
  intros Hnd Hopen σ'. subst σ'.
  rewrite (makeWindowMap_spec ws σ Hopen). cbn [fst snd].
  set (l := (fun w => (w, stored σ (id w) "uuid")) <$> ws).
  set (a := assignments (uuids σ) (drawn σ) l).
  set (reads := (fun w => sessions_getWindowValue (id w) "uuid") <$> ws).
  assert (∀ w old, (w, old) ∈ l ↔ w ∈ ws ∧ old = stored σ (id w) "uuid") as Hl.
  { intros w old. subst l. rewrite list_elem_of_fmap. split.
    - by intros (w' & [= -> ->] & Hw').
    - intros [Hw ->]. by exists w. }
  assert ((fun x : WindowRef * option string => id x.1) <$> l = id <$> ws) as Hids.
  { subst l. by rewrite <- list_fmap_compose. }
  assert (NoDup ((fun x : string * nat * bool => x.1.2) <$> a)) as Hnda.
  { subst a. by rewrite assignments_ids, Hids. }
  (* what is stored afterwards *)
  assert (∀ i key, stored (perform (reads ++ assign_calls a) σ) i key =
                   browser σ !! i ≫= fun win =>
                     final_values (assign_calls a ≫= writes_of) i (values win) !! key)
    as Hstored.
  { intros i key. unfold stored. cbn [browser perform].
    subst reads. rewrite reads_no_writes, lookup_apply_writes.
    by destruct (browser σ !! i). }
  assert (∀ i u, (u, i, true) ∈ a →
                 stored σ i "uuid" = None ∧ i ∈ id <$> ws ∧
                 ∃ n, u = uuids σ n ∧
                      drawn σ ≤ n < drawn (perform (reads ++ assign_calls a) σ))
    as Hnew.
  { intros i u Hin.
    destruct (assignments_new _ _ _ _ _ Hin) as (w & k & Hw & -> & -> & Hk).
    apply Hl in Hw as [Hw Hold]. split_and!; [done|by apply list_elem_of_fmap_2|].
    exists k. split; [done|]. cbn [drawn perform]. rewrite filter_app, length_app.
    fold a in Hk. lia. }
  assert (∀ i u, (u, i, true) ∈ a →
                 stored (perform (reads ++ assign_calls a) σ) i "uuid" = Some u)
    as Hfresh_stored.
  { intros i u Hin. destruct (Hnew i u Hin) as (_ & Hi & _).
    apply list_elem_of_fmap in Hi as (w & -> & Hw).
    destruct (Hopen w Hw) as [win Hwin]. rewrite Hstored, Hwin. cbn.
    apply final_values_agree.
    - intros v Hv. apply assign_writes in Hv as (u' & Hin' & [= ->]).
      by pose proof (NoDup_fmap_eq _ a _ _ Hnda Hin Hin' eq_refl) as [= ->].
    - exists u. apply assign_writes. eauto. }
  assert (∀ i u, stored σ i "uuid" = Some u →
                 stored (perform (reads ++ assign_calls a) σ) i "uuid" = Some u)
    as Hkept.
  { intros i u Hu. rewrite Hstored. unfold stored in Hu.
    destruct (browser σ !! i) as [win|] eqn:Hwin; [|done]. cbn in *.
    rewrite final_values_untouched; [done|].
    intros v Hv. apply assign_writes in Hv as (u' & Hin' & _).
    destruct (Hnew i u' Hin') as (Hnone & _). unfold stored in Hnone.
    rewrite Hwin in Hnone. cbn in Hnone. congruence. }
  eexists. split; [done|]. split_and!.
  - exact Hkept.
  - intros w Hw Hnone.
    destruct (assignments_elem (uuids σ) (drawn σ) l w None) as (u & fresh & Hin & ->).
    { apply Hl. by rewrite Hnone. }
    fold a in Hin. destruct (Hnew _ _ Hin) as (_ & _ & n & -> & Hn).
    exists n. split; [done|]. by apply Hfresh_stored.
  - cbn [drawn perform]. rewrite filter_app, length_app. f_equal.
    assert (filter is_randomUUID reads = []) as ->.
    { subst reads. clear. induction ws as [|w ws IH]; [done|]. cbn. apply IH. }
    cbn [length]. unfold a. rewrite assignments_drawn, Nat.add_0_l. subst l.
    clear. induction ws as [|w ws IH]; [done|]. rewrite fmap_cons, !filter_cons.
    cbn [snd]. destruct (decide (stored σ (id w) "uuid" = None)); cbn; by rewrite IH.
  - intros i key Hne. rewrite Hstored in Hne. unfold stored in Hne.
    destruct (browser σ !! i) as [win|] eqn:Hwin; [|done]. cbn in Hne.
    destruct (final_values_cases (assign_calls a ≫= writes_of) i (values win) key)
      as [Heq|[v Hv]]; [done|].
    apply assign_writes in Hv as (u & Hin & [= -> ->]).
    destruct (Hnew i u Hin) as (Hnone & Hi & _). done.
  - intros i. unfold title. cbn [browser perform]. subst reads.
    rewrite reads_no_writes, lookup_apply_writes.
    destruct (browser σ !! i) as [win|]; [|done]. cbn. f_equal.
    apply final_title_untouched. intros q Hq.
    by apply assign_writes in Hq as (u & _ & [=]).
  - intros Hinj Hfresh Hdist.
    assert (NoDup ((fun x : string * nat * bool => x.1.1) <$> a)) as Hkeys.
    { subst a. apply assignments_keys_NoDup; [by rewrite Hids|done|..].
      - intros w u k Hw Hu. apply Hl in Hw as [Hw Hold].
        apply (Hfresh w k); congruence.
      - intros w1 w2 u H1 H2. apply Hl in H1 as [H1 Hu1], H2 as [H2 Hu2].
        by apply (Hdist w1 w2 u). }
    assert (JsMap.wf ((fun x : string * nat * bool => x.1) <$> a)) as Hwf.
    { unfold JsMap.wf, JsMap.keys. by rewrite <- list_fmap_compose. }
    rewrite of_entries_wf by done. split_and!; [done|..].
    + rewrite <- list_fmap_compose, <- Hids.
      by rewrite <- (assignments_ids (uuids σ) (drawn σ) l).
    + intros w Hw.
      destruct (assignments_elem (uuids σ) (drawn σ) l w (stored σ (id w) "uuid"))
        as (u & fresh & Hin & Hold); [by apply Hl|].
      fold a in Hin. exists u. split.
      * destruct (stored σ (id w) "uuid") as [u'|] eqn:Hu.
        -- destruct Hold as [-> ->]. by apply Hkept.
        -- subst fresh. by apply Hfresh_stored.
      * apply elem_of_get; [done|]. apply list_elem_of_fmap.
        by exists (u, id w, fresh).
Qed.

(** ** The life of a marker *)

Section lifecycle.
Implicit Types (σ τ : World) (byUUID : JsMap.t nat).

Lemma Promise_all_inv {A} (ps : list (Settled A)) l :
  Promise_all ps = Fulfilled l → ps = Fulfilled <$> l.
Proof.
  revert l. induction ps as [|[a|e] ps IH]; intros l H; cbn in H.
  - by injection H as <-.
  - destruct (Promise_all ps) as [l'|e]; [|done]. injection H as <-.
    cbn. by rewrite (IH l').
  - done.
Qed.

Lemma makeWindowsMessage_spec byUUID σ :
  makeWindowsMessage byUUID σ =
  (perform ((fun e => sessions_getWindowValue e.2 "workspace") <$> byUUID) σ,
   settled_map (fun es => {| request_windows := JsMap.of_entries es |})
     (Promise_all
        ((fun e => settled_map (fun v => (e.1, or_null v))
                     (read_of σ e.2 "workspace")) <$> byUUID))).
Proof.
  unfold makeWindowsMessage. by rewrite each_getWindowValue, zip_with_fmap_r.
Qed.

Lemma makeWindowMap_result_wf ws σ wmap :
  (makeWindowMap ws σ).2 = Fulfilled wmap → JsMap.wf wmap.
Proof.
  unfold makeWindowMap. destruct (each _ ws σ) as [σ1 reads].
  destruct (each makeWindowMap_resume _ σ1) as [σ2 entries]. cbn.
  destruct (Promise_all entries); [|done]. intros [= <-]. apply wf_of_entries.
Qed.

Lemma sync_request_spec byUUID σ :
  sync_request byUUID σ =
  let reads := (fun e => sessions_getWindowValue e.2 "workspace") <$> byUUID in
  let σ2 := perform (reads ++ beacon_calls byUUID) σ in
  match settled_map (fun es => {| request_windows := JsMap.of_entries es |})
          (Promise_all
             ((fun e => settled_map (fun v => (e.1, or_null v))
                          (read_of σ e.2 "workspace")) <$> byUUID))
  with
  | Rejected e => (σ2, Rejected e)
  | Fulfilled message =>
      match Promise_all ((fun c => answer c (browser σ)) <$> beacon_calls byUUID)
      with
      | Rejected e => (σ2, Rejected e)
      | Fulfilled _ => (perform [host_postMessage message] σ2, Fulfilled tt)
      end
  end.
Proof.
  unfold sync_request. rewrite makeWindowsMessage_spec.
  unfold await at 1. unfold called. rewrite beaconifyWindows_spec.
  rewrite perform_app. unfold await at 1. cbn zeta.
  rewrite browser_perform_reads by (apply Forall_fmap, Forall_true; done).
  destruct (settled_map _ _) as [message|e]; [|done].
  unfold await, await_all. destruct (Promise_all _); [|done].
  by rewrite postMessage_world.
Qed.

(** The promise of [sync_request] is fulfilled only when every window of
    [byUUID] is open; then the request is posted last, after the updates
    that set the markers. *)
Lemma sync_request_fulfilled byUUID σ :
  (sync_request byUUID σ).2 = Fulfilled tt →
  ∃ message,
    (sync_request byUUID σ).1 =
      perform (((fun e => sessions_getWindowValue e.2 "workspace") <$> byUUID)
               ++ beacon_calls byUUID ++ [host_postMessage message]) σ
    ∧ (∀ u, u ∈ JsMap.keys (request_windows message) → u ∈ JsMap.keys byUUID)
    ∧ (∀ u w, (u, w) ∈ byUUID → is_open σ w).
Proof.
  rewrite sync_request_spec. cbn zeta.
  match goal with
  | |- context [Promise_all ?ps] => destruct (Promise_all ps) as [es|e] eqn:Hes
  end; [|done].
  cbn [settled_map].
  match goal with
  | |- context [Promise_all ?ps] => destruct (Promise_all ps) as [oks|e] eqn:Hoks
  end; [|done].
  intros _. eexists. split_and!.
  - cbn [fst]. rewrite perform_app. by rewrite <- app_assoc.
  - cbn [request_windows]. intros u Hu.
    apply (keys_set_all es []) in Hu as [Hu|Hu]; [by apply elem_of_nil in Hu|].
    apply Promise_all_inv in Hes.
    apply list_elem_of_fmap in Hu as ([u' p] & -> & Hin).
    assert (Fulfilled (u', p) ∈ Fulfilled <$> es) as Hin'
      by by apply list_elem_of_fmap_2.
    rewrite <- Hes in Hin'. apply list_elem_of_fmap in Hin' as ([u0 w0] & Heq & Hin0).
    cbn in Heq. destruct (read_of σ w0 "workspace"); [|done].
    injection Heq as -> _. apply list_elem_of_fmap. by exists (u0, w0).
  - intros u w Hin. apply Promise_all_inv in Hoks.
    assert (answer (windows_update (Some w) (marker u)) (browser σ)
            ∈ Fulfilled <$> oks) as Hok.
    { rewrite <- Hoks. apply list_elem_of_fmap.
      exists (windows_update (Some w) (marker u)). split; [done|].
      unfold beacon_calls. apply list_elem_of_fmap. by exists (u, w). }
    apply list_elem_of_fmap in Hok as ([] & Hok & _). cbn in Hok.
    unfold is_open. by destruct (browser σ !! w).
Qed.

(** After a request was posted, every window it names carries a marker. *)
Lemma sync_request_lifecycle byUUID σ :
  (sync_request byUUID σ).2 = Fulfilled tt →
  (∀ u, u ∈ JsMap.keys byUUID → JsMap.get (windowMap σ) u = JsMap.get byUUID u) →
  let σ' := (sync_request byUUID σ).1 in
  ∃ before message,
    calls σ' = calls σ ++ before ++ [host_postMessage message]
    ∧ windowMap σ' = windowMap σ
    ∧ ∀ u, u ∈ JsMap.keys (request_windows message) →
           ∃ w, JsMap.get (windowMap σ') u = Some w
                ∧ windows_update (Some w) (marker u) ∈ before
                ∧ is_open σ' w
                ∧ ∃ p, title σ' w = Some p ∧ p ≠ "".
Proof.
  intros Hok Hmap σ'. subst σ'.
  destruct (sync_request_fulfilled byUUID σ Hok) as (message & -> & Hkeys & Hopen).
  exists (((fun e => sessions_getWindowValue e.2 "workspace") <$> byUUID)
          ++ beacon_calls byUUID), message.
  split_and!.
  - cbn [calls perform]. by rewrite <- !app_assoc.
  - done.
  - intros u Hu. apply Hkeys in Hu.
    apply get_is_Some in Hu as Hw. destruct Hw as [w Hw].
    apply get_Some_elem_of in Hw as Hin. exists w. split_and!.
    + cbn [windowMap perform]. by rewrite Hmap.
    + apply elem_of_app. right. unfold beacon_calls.
      apply list_elem_of_fmap. by exists (u, w).
    + apply is_open_perform. by eapply Hopen.
    + destruct (Hopen u w Hin) as [win Hwin].
      unfold title. cbn [browser perform].
      rewrite lookup_apply_writes, Hwin. cbn. eexists. split; [done|].
      rewrite !bind_app.
      assert (((fun e : string * nat => sessions_getWindowValue e.2 "workspace")
                 <$> byUUID) ≫= writes_of = []) as ->.
      { clear. induction byUUID as [|e l IH]; [done|]. cbn. apply IH. }
      cbn [app mbind list_bind writes_of]. rewrite app_nil_r.
      destruct (final_title_cases (beacon_calls byUUID ≫= writes_of) w
                  (titlePreface win)) as [[Hno _]|(q & Hq & ->)].
      * exfalso. apply (Hno (marker u)). apply beacon_writes. eauto.
      * apply beacon_writes in Hq as (u' & _ & [= ->]). apply marker_nonempty.
Qed.

(** Handlers other than that of a sync response leave a marker in place,
    or replace it by a marker. *)
Lemma made_keeps_marker τ τ' w p :
  made sets_marker τ τ' → title τ w = Some p → p ≠ "" →
  ∃ p', title τ' w = Some p' ∧ p' ≠ "".
Proof.
  intros (cs & [_ Hb] & Hcs) Hp Hne. unfold title in *. rewrite Hb.
  rewrite lookup_apply_writes. destruct (browser τ !! w) as [win|]; [|done].
  cbn in *. injection Hp as <-. eexists. split; [done|].
  destruct (final_title_cases (cs ≫= writes_of) w (titlePreface win))
    as [[_ ->]|(q & Hq & ->)]; [done|].
  apply list_elem_of_bind in Hq as (c & Hq & Hc).
  rewrite Forall_forall in Hcs. specialize (Hcs c Hc).
  destruct c as [| [?|] ? [] | [?|] ?| | |]; cbn in Hq;
    try (by apply elem_of_nil in Hq);
    apply list_elem_of_singleton in Hq as [= -> Heq]; try done.
  subst q. destruct Hcs as [u ->]. apply marker_nonempty.
Qed.

Lemma elem_of_until_throw c cs : c ∈ until_throw cs → c ∈ cs.
Proof.
  induction cs as [|c' cs IH]; cbn; [done|]. intros Hc.
  apply elem_of_cons in Hc as [->|Hc]; [apply elem_of_cons; by left|].
  destruct (throws c'); [by apply elem_of_nil in Hc|].
  apply elem_of_cons. right. by apply IH.
Qed.

(** A sync response that does not name a window leaves its title. *)
Lemma response_keeps_title message payload τ w :
  truthy (windows message) = Some payload →
  ¬ names_window τ payload w →
  title (handleHostMessage message τ).1 w = title τ w.
Proof.
  intros Hm Hno. rewrite (handleHostMessage_response message payload τ Hm).
  unfold title. cbn [fst browser perform]. rewrite lookup_apply_writes.
  destruct (browser τ !! w) as [win|]; [|done]. cbn. f_equal.
  apply final_title_untouched. intros q Hq.
  apply list_elem_of_bind in Hq as (c & Hq & Hc).
  assert (c ∈ clear_calls (windowMap τ) payload
          ∨ c ∈ move_calls (windowMap τ) payload) as [Hin|Hin].
  { unfold response_calls in Hc. destruct (find throws _).
    - left. by apply elem_of_until_throw.
    - apply elem_of_app in Hc as [Hc|Hc]; [by left|].
      right. by apply elem_of_until_throw. }
  - apply list_elem_of_fmap in Hin as (u & -> & Hu). cbn in Hq.
    destruct (JsMap.get (windowMap τ) u) as [w'|] eqn:Hget;
      [|by apply elem_of_nil in Hq].
    apply list_elem_of_singleton in Hq as [= -> _]. apply Hno. by exists u.
  - apply list_elem_of_fmap in Hin as (e & -> & _). cbn in Hq.
    destruct (JsMap.get (windowMap τ) e.1); [|by apply elem_of_nil in Hq].
    by apply list_elem_of_singleton in Hq.
Qed.

Lemma quiet_keeps_marker es τ w p :
  quiet_for w es τ →
  title τ w = Some p → p ≠ "" →
  ∃ p', title (run es τ) w = Some p' ∧ p' ≠ "".
Proof.
  revert τ p. induction es as [|e es IH]; intros τ p Hes Hp Hne; [by eauto|].
  destruct Hes as [He Hes]. cbn [run fold_left].
  assert (∃ p', title (handler e τ).1 w = Some p' ∧ p' ≠ "") as (p' & Hp' & Hne').
  { assert (¬ is_sync_response e →
            ∃ p', title (handler e τ).1 w = Some p' ∧ p' ≠ "") as Hquiet.
    { intros Hq. eapply made_keeps_marker; [|done..].
      apply made_handler; [| |done].
      - by intros [].
      - intros w' uuid. cbn. eauto. }
    destruct e as [|w'|message]; [by apply Hquiet; intros []..|].
    destruct (truthy (windows message)) as [payload|] eqn:Hm.
    - cbn in He |- *. rewrite Hm in He.
      rewrite (response_keeps_title message payload τ w Hm He). eauto.
    - apply Hquiet. cbn. rewrite Hm. by intros [? [=]]. }
  by apply (IH _ p').
Qed.

Lemma run_is_open es τ w : is_open τ w → is_open (run es τ) w.
Proof.
  destruct (made_run (fun _ => True)) with (es := es) (σ := τ)
    as (cs & [_ Hb] & _); try done.
  unfold is_open. rewrite Hb. by rewrite apply_writes_is_Some.
Qed.

(** A sync response whose identities are known clears the title of the
    window of each. *)
Lemma response_clears_title message payload τ u w :
  truthy (windows message) = Some payload →
  (∀ u', u' ∈ JsMap.keys payload → is_Some (JsMap.get (windowMap τ) u')) →
  u ∈ JsMap.keys payload → JsMap.get (windowMap τ) u = Some w → is_open τ w →
  title (handleHostMessage message τ).1 w = Some "".
Proof.
  intros Hm Hknown Hu Hget [win Hw].
  rewrite (handleHostMessage_response message payload τ Hm).
  unfold title. cbn [fst browser perform]. rewrite lookup_apply_writes, Hw. cbn.
  pose proof (response_writes (windowMap τ) payload Hknown) as HW.
  f_equal. apply final_title_agree.
  - intros q Hq. apply HW in Hq as (? & ? & _ & _ & [[= ->]|[=]]). done.
  - apply list_elem_of_fmap in Hu as ([u' ws] & -> & Hin).
    exists "". apply HW. exists u', ws. auto.
Qed.
End lifecycle.

(** Both handlers that post a request end in [sync_request], on a world in
    which [windowMap] holds the identities of the request. *)
Lemma request_posted (e : Event) (σ : World) :
  e = Startup ∨ (∃ w, e = Created w) →
  (handler e σ).2 = Fulfilled tt →
  ∃ σ1 byUUID pre,
    calls σ1 = calls σ ++ pre
    ∧ handler e σ = sync_request byUUID σ1
    ∧ ∀ u, u ∈ JsMap.keys byUUID →
           JsMap.get (windowMap σ1) u = JsMap.get byUUID u.
Proof.
  assert (∀ ws τ, ∃ pre, calls (makeWindowMap ws τ).1 = calls τ ++ pre) as Hpre.
  { intros ws τ. destruct (made_makeWindowMap (fun _ => True)) with (ws := ws) (σ := τ)
      as (pre & [Hc _] & _); [done|]. eauto. }
  intros [->|[w ->]]; cbn [handler].
  - unfold main, await. rewrite (surjective_pairing (getAll σ)).
    rewrite getAll_world. cbn [snd getAll].
    set (ws := _ <$> map_to_list (browser σ)).
    destruct (Hpre ws (perform [windows_getAll] σ)) as [pre Hcalls].
    destruct (makeWindowMap ws (perform [windows_getAll] σ)) as [σm [wmap|err]];
      [|done].
    intros _. exists (updateWindowMap wmap σm), (windowMap (updateWindowMap wmap σm)).
    exists (windows_getAll :: pre). split_and!; [|done..].
    cbn [fst calls perform updateWindowMap set_windowMap] in *.
    by rewrite Hcalls, <- app_assoc.
  - unfold handleWindowCreated, await.
    destruct (Hpre [w] σ) as [pre Hcalls].
    pose proof (makeWindowMap_result_wf [w] σ) as Hwf.
    destruct (makeWindowMap [w] σ) as [σm [wmap|err]]; [|done].
    intros _. exists (updateWindowMap wmap σm), wmap, pre. split_and!; [done..|].
    intros u Hu. cbn [windowMap updateWindowMap set_windowMap].
    unfold JsMap.of_entries. rewrite set_all_app.
    rewrite get_set_all by by apply Hwf.
    apply get_is_Some in Hu as [w' ->]. done.
Qed.

(** C7, as the script has it.  When [main] or [handleWindowCreated] posts a
    sync request, the request is the last call of the handler, and for every
    identity [u] in the request the call
    [windows.update(w, { titlePreface: marker u })] on the window [w] of [u]
    was made before it and succeeded ([w] is open).  From then on [w]
    carries a non-empty title preface through any events, sync responses
    included, until a sync response names an identity of [w]; and a sync
    response that names [u] (and only identities of [windowMap], with [w]
    still the window of [u]) leaves [w] with the empty title preface. *)
Theorem marker_lifecycle (e : Event) (σ : World) :
  e = Startup ∨ (∃ w, e = Created w) →
  (handler e σ).2 = Fulfilled tt →
  let σ' := (handler e σ).1 in
  ∃ before message,
    calls σ' = calls σ ++ before ++ [host_postMessage message]
    ∧ ∀ u, u ∈ JsMap.keys (request_windows message) →
      ∃ w, JsMap.get (windowMap σ') u = Some w
        ∧ windows_update (Some w) (marker u) ∈ before
        ∧ is_open σ' w
        ∧ (∀ es, quiet_for w es σ' →
                 ∃ p, title (run es σ') w = Some p ∧ p ≠ "")
        ∧ (∀ es response payload,
             let τ := run es σ' in
             truthy (windows response) = Some payload →
             u ∈ JsMap.keys payload →
             (∀ u', u' ∈ JsMap.keys payload → is_Some (JsMap.get (windowMap τ) u')) →
             JsMap.get (windowMap τ) u = Some w →
             title (handleHostMessage response τ).1 w = Some "").
Proof.
  intros He Hok σ'. subst σ'.
  destruct (request_posted e σ He Hok) as (σ1 & byUUID & pre & Hpre & Heq & Hmap).
  rewrite Heq in Hok |- *.
  destruct (sync_request_lifecycle byUUID σ1 Hok Hmap)
    as (before & message & Hcalls & _ & Hmarkers).
  exists (pre ++ before), message. split.
  - by rewrite Hcalls, Hpre, <- !app_assoc.
  - intros u Hu. destruct (Hmarkers u Hu) as (w & Hw & Hcall & Hopen & p & Hp & Hne).
    exists w. split_and!; [done| |done|..].
    + apply elem_of_app. by right.
    + intros es Hes. by eapply quiet_keeps_marker.
    + intros es response payload τ Hm Hin Hknown Hget.
      eapply response_clears_title; [done..|]. by apply run_is_open.
Qed.

(** C7 as the specification states it does not hold.  At startup with the
    example windows [main] posts a request that names [A], [B] and the new
    identity of window 3, each window carrying its marker.  The host answers
    for [A] alone (it did not find the other windows).  Once this response is
    applied, window 1 has the empty title preface, but window 2, named in the
    request, still carries its marker: its title preface is not empty. *)
Lemma marker_outlives_response :
  let sent := main (boot example_browser example_uuids) in
  let answered := handleHostMessage (sync_response [("A", "1")]) sent.1 in
  sent.2 = Fulfilled tt
  ∧ last (calls sent.1) =
    Some (host_postMessage
            {| request_windows :=
                 [("B", placement "2"); ("uuid-0", null); ("A", null)] |})
  ∧ JsMap.get (windowMap sent.1) "B" = Some 2
  ∧ answered.2 = Fulfilled tt
  ∧ title answered.1 1 = Some ""
  ∧ title answered.1 2 = Some "B | "
  ∧ title answered.1 2 ≠ Some "".
Proof. vm_compute. split_and!; done. Qed.

(** ** The theorems at work in the example world *)

(** Case analysis on a member of a list that is written out. *)
Ltac member_cases H :=
  unfold JsMap.keys in H; cbn in H;
  repeat (apply elem_of_cons in H as [?|H]; [simplify_eq|]);
  try (by apply elem_of_nil in H).

(** C1 for the sync response [{ A: "1", B: "3" }] and window 2. *)
Lemma sync_response_applied_witness :
  let payload := [("A", "1"); ("B", "3")] in
  let σ' := (handleHostMessage (sync_response payload) example_world).1 in
  JsMap.wf payload
  ∧ ("B", "3") ∈ payload
  ∧ JsMap.get (windowMap example_world) "B" = Some 2
  ∧ is_open example_world 2
  ∧ title σ' 2 = Some "" ∧ stored σ' 2 "workspace" = Some "3".
Proof.
  intros payload σ'.
  assert (Hwf : JsMap.wf payload) by (by apply (bool_decide_unpack _)).
  assert (Hin : ("B", "3") ∈ payload) by (by apply (bool_decide_unpack _)).
  assert (Hopen : is_open example_world 2) by (by eexists).
  refine (conj Hwf (conj Hin (conj eq_refl (conj Hopen _)))).
  apply (sync_response_applied (sync_response payload) payload example_world "B" "3" 2);
    try done.
  - intros u Hu. member_cases Hu; by eexists.
  - intros u Hu. member_cases Hu; by vm_compute.
Defined.

(** C3 for a sync response with the unknown identity [Z] in second place. *)
Lemma unknown_identity_throws_witness :
  JsMap.get (windowMap example_world) "Z" = None
  ∧ handleHostMessage (sync_response [("A", "1"); ("Z", "7"); ("B", "3")])
                      example_world
    = (perform [windows_update (Some 1) ""; windows_update None ""] example_world,
       Rejected (IncorrectArgumentTypes "windows.update")).
Proof.
  split; [done|].
  refine (proj1 (proj1 (unknown_identity_throws
                          (sync_response [("A", "1"); ("Z", "7"); ("B", "3")])
                          example_world [("A", "1")] [("B", "3")] "Z" "7" _ eq_refl)
                       eq_refl)).
  intros u Hu. member_cases Hu. by eexists.
Defined.

(** C4 for windows 2 (identity [B]) and 3 (none yet). *)
Lemma makeWindowMap_identities_witness :
  let ws := [ {| id := 2 |}; {| id := 3 |} ] in
  NoDup (id <$> ws)
  ∧ (∀ w, w ∈ ws → is_open example_world (id w))
  ∧ ∃ wmap, (makeWindowMap ws example_world).2 = Fulfilled wmap
            ∧ stored (makeWindowMap ws example_world).1 2 "uuid" = Some "B"
            ∧ wmap.*2 = [2; 3].
Proof.
  intros ws.
  assert (Hnd : NoDup (id <$> ws)) by (by apply (bool_decide_unpack _)).
  assert (Hopen : ∀ w, w ∈ ws → is_open example_world (id w)).
  { intros w Hw. member_cases Hw; by eexists. }
  refine (conj Hnd (conj Hopen _)).
  destruct (makeWindowMap_identities ws example_world Hnd Hopen)
    as (wmap & Hok & Hkept & _ & _ & _ & _ & Hmap).
  exists wmap. split; [exact Hok|]. split; [by apply Hkept|].
  apply Hmap.
  - intros i j Heq. unfold example_world, uuids, example_uuids in Heq.
    by apply (inj (String.app "uuid-")), (inj pretty) in Heq.
  - intros w n Hw. member_cases Hw; by vm_compute.
  - intros w1 w2 u H1 H2. member_cases H1; member_cases H2; by vm_compute.
Defined.

(** C5 for the window map of the example world. *)
Lemma makeWindowsMessage_reads_witness :
  let byUUID := [("A", 1); ("B", 2)] in
  JsMap.wf byUUID
  ∧ (makeWindowsMessage byUUID example_world).2 =
    Fulfilled {| request_windows := [("A", null); ("B", placement "2")] |}.
Proof.
  intros byUUID.
  assert (Hwf : JsMap.wf byUUID) by (by apply (bool_decide_unpack _)).
  refine (conj Hwf _).
  refine (proj1 (makeWindowsMessage_reads byUUID example_world Hwf _)).
  intros u w Hin. member_cases Hin; by eexists.
Defined.

(** C6 for window 1. *)
Lemma marker_format_witness :
  ("A", 1) ∈ [("A", 1)]
  ∧ is_open example_world 1
  ∧ ∃ u, ("A", 1) = (u, 1) ∧
         title (beaconifyWindows [("A", 1)] example_world).1 1 = Some (u ++ " | ")%string.
Proof.
  assert (Hin : ("A", 1) ∈ [("A", 1)]) by (by apply (bool_decide_unpack _)).
  assert (Hopen : is_open example_world 1) by (by eexists).
  refine (conj Hin (conj Hopen _)).
  destruct (proj1 marker_format [("A", 1)] example_world "A" 1 Hin Hopen)
    as (u & Hu & Htitle).
  exists u. split; [|exact Htitle]. member_cases Hu. done.
Defined.

(** C7 for the creation of window 3. *)
Lemma marker_lifecycle_witness :
  let e := Created {| id := 3 |} in
  (handler e example_world).2 = Fulfilled tt
  ∧ ∃ before message,
      calls (handler e example_world).1 = before ++ [host_postMessage message].
Proof.
  intros e.
  assert (Hok : (handler e example_world).2 = Fulfilled tt) by (by vm_compute).
  refine (conj Hok _).
  destruct (marker_lifecycle e example_world (or_intror (ex_intro _ _ eq_refl)) Hok)
    as (before & message & Hcalls & _).
  exists before, message. exact Hcalls.
Defined.

(** C8 for the sync response [{ A: "1", B: "3" }]. *)
Lemma sync_response_idempotent_witness :
  let message := sync_response [("A", "1"); ("B", "3")] in
  let once := (handleHostMessage message example_world).1 in
  let twice := (handleHostMessage message once).1 in
  is_Some (truthy (windows message)) ∧ browser twice = browser once.
Proof.
  intros message once twice.
  assert (H : is_Some (truthy (windows message))) by (by eexists).
  exact (conj H (proj2 (sync_response_idempotent message example_world H))).
Defined.

(** C9 for a mapping that moves [B] and adds [C]. *)
Lemma updateWindowMap_merge_witness :
  let wmap := [("B", 5); ("C", 3)] in
  JsMap.wf (windowMap example_world) ∧ JsMap.wf wmap
  ∧ JsMap.get (windowMap (updateWindowMap wmap example_world)) "B" = Some 5.
Proof.
  intros wmap.
  assert (H1 : JsMap.wf (windowMap example_world)) by (by apply (bool_decide_unpack _)).
  assert (H2 : JsMap.wf wmap) by (by apply (bool_decide_unpack _)).
  refine (conj H1 (conj H2 _)).
  exact (proj1 (updateWindowMap_merge wmap example_world H1 H2) "B").
Defined.

(** C10 for a message with a null and an empty-string property. *)
Lemma handleHostMessage_inert_witness :
  let message := {| windows := Absent; window_move := FalsyValue FNull;
                    workspace_rename := FalsyValue FEmptyString |} in
  truthy (windows message) = None
  ∧ handleHostMessage message example_world = (example_world, Fulfilled tt).
Proof.
  intros message.
  exact (conj eq_refl
              (handleHostMessage_inert message example_world eq_refl eq_refl eq_refl)).
Defined.


(** * Further properties of the script *)

(** ** What a list of calls leaves alone *)

Section untouched.
Implicit Types (σ : World) (cs : list Call).

Lemma stored_perform_untouched cs σ i key :
  (∀ v, (i, SetValue key v) ∉ cs ≫= writes_of) →
  stored (perform cs σ) i key = stored σ i key.
Proof.
  intros Hno. unfold stored. cbn [browser perform]. rewrite lookup_apply_writes.
  destruct (browser σ !! i) as [win|]; [|done]. cbn.
  by apply final_values_untouched.
Qed.

Lemma title_perform_untouched cs σ i :
  (∀ q, (i, SetTitle q) ∉ cs ≫= writes_of) →
  title (perform cs σ) i = title σ i.
Proof.
  intros Hno. unfold title. cbn [browser perform]. rewrite lookup_apply_writes.
  destruct (browser σ !! i) as [win|]; [|done]. cbn. f_equal.
  by apply final_title_untouched.
Qed.

Lemma Forall_until_throw (P : Call → Prop) cs :
  Forall P cs → Forall P (until_throw cs).
Proof.
  induction 1 as [|c cs Hc _ IH]; [constructor|]. cbn.
  constructor; [done|]. destruct (throws c); [constructor | done].
Qed.

Lemma response_calls_host_message wm (payload : JsMap.t string) :
  Forall host_message_call (response_calls wm payload).
Proof.
  assert (Forall host_message_call (clear_calls wm payload)) as Hclear.
  { unfold clear_calls. apply Forall_fmap, Forall_true. done. }
  assert (Forall host_message_call (move_calls wm payload)) as Hmove.
  { unfold move_calls. apply Forall_fmap, Forall_true. done. }
  unfold response_calls. destruct (find throws _).
  - by apply Forall_until_throw.
  - apply Forall_app. split; [done | by apply Forall_until_throw].
Qed.

Lemma rename_calls_host_message (payload : JsMap.t string) l :
  Forall host_message_call (rename_calls payload l).
Proof.
  unfold rename_calls. induction l as [|x l IH]; [constructor|].
  cbn. apply Forall_app. split; [|exact IH].
  destruct (obj_get payload (toPropertyKey x.2)); by repeat constructor.
Qed.

(** The world after the callbacks of [workspaceRenamed]: the calls of
    [rename_calls] were made, and the two globals were assigned. *)
Lemma each_rename_world (payload : JsMap.t string)
    (l : list (WindowRef * option string)) σ :
  ∃ old new,
    (each (workspaceRenamed_resume payload)
          ((fun x => (x.1, Fulfilled x.2)) <$> l) σ).1
    = set_globals old new (perform (rename_calls payload l) σ).
Proof.
  revert σ. induction l as [|[w old] l IH]; intros σ.
  - exists (oldWorkspace σ), (newWorkspace σ). cbn. rewrite perform_nil.
    by destruct σ.
  - cbn [fmap list_fmap each fst snd].
    change (list_fmap _ _ ?g l) with (g <$> l).
    change (rename_calls payload ((w, old) :: l))
      with (match obj_get payload (toPropertyKey old) with
            | Some value => [sessions_setWindowValue (Some (id w)) "workspace" value]
            | None => []
            end ++ rename_calls payload l).
    set (new := obj_get payload (toPropertyKey old)).
    assert (∃ r, workspaceRenamed_resume payload (w, Fulfilled old) σ =
                 (set_globals old new
                    (perform match new with
                             | Some value =>
                                 [sessions_setWindowValue (Some (id w)) "workspace" value]
                             | None => []
                             end σ), r)) as [r ->].
    { unfold workspaceRenamed_resume, await. fold new. destruct new as [value|].
      - unfold awaited. rewrite setWindowValue_spec. destruct (throws _); by eexists.
      - rewrite perform_nil. by eexists. }
    destruct (IH (set_globals old new
                    (perform match new with
                             | Some value =>
                                 [sessions_setWindowValue (Some (id w)) "workspace" value]
                             | None => []
                             end σ))) as (old' & new' & Heq).
    destruct (each _ _ _) as [σ2 rs]. cbn [fst] in *. subst σ2.
    exists old', new'. by rewrite <- perform_app.
Qed.

Lemma workspaceRenamed_world (payload : JsMap.t string) σ :
  ∃ old new cs,
    (workspaceRenamed payload σ).1 = set_globals old new (perform cs σ)
    ∧ Forall host_message_call cs.
Proof.
  unfold workspaceRenamed, await. rewrite (surjective_pairing (getAll σ)).
  rewrite getAll_world. cbn [snd getAll].
  rewrite each_getWindowValue, zip_fmap_r.
  set (σ1 := perform [windows_getAll] σ).
  set (reads := (fun x : WindowRef => sessions_getWindowValue (id x) "workspace")
                  <$> _).
  set (l := (fun e : nat * Window => ({| id := e.1 |}, values e.2 !! "workspace"))
              <$> map_to_list (browser σ)).
  assert ((fun x : WindowRef => (x, read_of σ1 (id x) "workspace"))
            <$> ((fun e : nat * Window => {| id := e.1 |}) <$> map_to_list (browser σ))
          = (fun x : WindowRef * option string => (x.1, Fulfilled x.2)) <$> l) as ->.
  { subst l. rewrite <- !list_fmap_compose. apply list_fmap_ext.
    intros i [w win] Hin. cbn. f_equal.
    apply list_elem_of_lookup_2, elem_of_map_to_list in Hin.
    unfold read_of. cbn. by rewrite Hin. }
  destruct (each_rename_world payload l (perform reads σ1)) as (old & new & Heq).
  destruct (each _ _ (perform reads σ1)) as [σ2 rs]. cbn [fst] in *. subst σ2.
  exists old, new, ([windows_getAll] ++ reads ++ rename_calls payload l).
  split.
  - subst σ1. by rewrite !perform_app.
  - apply Forall_app. split; [by repeat constructor|].
    apply Forall_app. split; [|apply rename_calls_host_message].
    subst reads. apply Forall_fmap, Forall_true. done.
Qed.

(** What [handleHostMessage] leaves behind, whatever the message. *)
Lemma handleHostMessage_world message σ :
  ∃ old new cs,
    (handleHostMessage message σ).1 = set_globals old new (perform cs σ)
    ∧ Forall host_message_call cs.
Proof.
  assert (∀ cs, perform cs σ =
                set_globals (oldWorkspace σ) (newWorkspace σ) (perform cs σ)) as Hid.
  { done. }
  destruct (truthy (windows message)) as [payload|] eqn:Hw.
  { rewrite (handleHostMessage_response message payload σ Hw).
    eexists _, _, _. split; [apply Hid|]. apply response_calls_host_message. }
  destruct (truthy (window_move message)) as [payload|] eqn:Hm.
  { rewrite (handleHostMessage_move message payload σ Hw Hm).
    eexists _, _, _. split; [apply Hid|]. apply Forall_until_throw.
    unfold move_calls. apply Forall_fmap, Forall_true. done. }
  unfold handleHostMessage. rewrite Hw, Hm.
  destruct (truthy (workspace_rename message)) as [payload|].
  - apply workspaceRenamed_world.
  - exists (oldWorkspace σ), (newWorkspace σ), []. split; [|constructor].
    cbn. rewrite perform_nil. by destruct σ.
Qed.
End untouched.

(** X1.  Whatever the host sends, [handleHostMessage] stays within a small
    footprint: it makes no call but [windows.update] with the empty title
    preface, [sessions.getWindowValue] and [sessions.setWindowValue] on the
    key ['workspace'], and [windows.getAll].  So it never posts to the host,
    never draws a UUID, never changes [windowMap], and never changes a
    session value stored under another key (a window's ['uuid'] among
    them); and it opens or closes no window. *)
Theorem host_message_footprint (message : Notification) (σ : World) :
  let σ' := (handleHostMessage message σ).1 in
  (∃ cs, calls σ' = calls σ ++ cs ∧ Forall host_message_call cs)
  ∧ windowMap σ' = windowMap σ
  ∧ drawn σ' = drawn σ
  ∧ (∀ i key, key ≠ "workspace" → stored σ' i key = stored σ i key)
  ∧ (∀ i, is_open σ' i ↔ is_open σ i).
Proof.
  intros σ'. subst σ'.
  destruct (handleHostMessage_world message σ) as (old & new & cs & -> & Hcs).
  split_and!.
  - by exists cs.
  - done.
  - cbn [drawn set_globals perform].
    assert (filter is_randomUUID cs = []) as ->; [|cbn; lia].
    induction Hcs as [|c cs Hc _ IH]; [done|].
    rewrite filter_cons_False; [done|]. destruct c; cbn in *; tauto.
  - intros i key Hkey.
    change (stored (set_globals old new (perform cs σ)) i key)
      with (stored (perform cs σ) i key).
    apply stored_perform_untouched. intros v Hv.
    apply list_elem_of_bind in Hv as (c & Hv & Hc).
    rewrite Forall_forall in Hcs. specialize (Hcs c Hc).
    destruct c as [| [?|] ? [] | [?|] ?| | |]; cbn in Hv, Hcs;
      try (by apply elem_of_nil in Hv);
      apply list_elem_of_singleton in Hv; congruence.
  - intros i. apply (is_open_perform cs σ i).
Qed.

(** ** The handlers that open a sync cycle *)

Section opening.
Implicit Types (σ : World) (ws : list WindowRef).

(** A window that is closed by the time [makeWindowMap] reads its
    identity. *)
Lemma makeWindowMap_closed w σ :
  ¬ is_open σ (id w) →
  makeWindowMap [w] σ =
  (perform [sessions_getWindowValue (id w) "uuid"] σ,
   Rejected (InvalidWindowID (id w))).
Proof.
  intros Hclosed. unfold makeWindowMap. rewrite each_getWindowValue.
  cbn [fmap list_fmap zip zip_with each]. unfold read_of.
  destruct (browser σ !! id w) as [win|] eqn:Hw.
  { exfalso. apply Hclosed. by eexists. }
  done.
Qed.

Lemma sync_request_world byUUID σ :
  ∃ cs, (sync_request byUUID σ).1 = perform cs σ ∧ Forall request_call cs.
Proof.
  rewrite sync_request_spec. cbn zeta.
  set (reads := (fun e : string * nat => sessions_getWindowValue e.2 "workspace")
                  <$> byUUID).
  assert (Forall request_call (reads ++ beacon_calls byUUID)) as Hcs.
  { apply Forall_app. split.
    - subst reads. apply Forall_fmap, Forall_true. done.
    - unfold beacon_calls. apply Forall_fmap, Forall_true. intros e. cbn. eauto. }
  destruct (settled_map _ _) as [message|e]; [|by eexists].
  destruct (Promise_all _); [|by eexists].
  exists ((reads ++ beacon_calls byUUID) ++ [host_postMessage message]). split.
  - cbn [fst]. by rewrite perform_app.
  - apply Forall_app. split; [done | by repeat constructor].
Qed.

(** What [main] and [handleWindowCreated], for a window that is open, do
    up to the shared tail. *)
Lemma opening_handler_shape e σ :
  e = Startup ∨ (∃ w, e = Created w ∧ is_open σ (id w)) →
  ∃ ws pre byUUID,
    NoDup (id <$> ws)
    ∧ (∀ w, w ∈ ws → is_open σ (id w))
    ∧ Forall is_read pre
    ∧ (e = Startup → ∀ i, is_open σ i → i ∈ id <$> ws)
    ∧ (∀ w, e = Created w → ws = [w])
    ∧ let σ1 := updateWindowMap (identity_map σ ws)
                  (perform (pre ++ assign_calls (identities σ ws)) σ) in
      handler e σ = sync_request byUUID σ1
      ∧ byUUID = (if e is Startup then windowMap σ1 else identity_map σ ws).
Proof.
  intros [->|(w & -> & Hopen)]; cbn [handler].
  - set (ws := (fun e : nat * Window => {| id := e.1 |}) <$> map_to_list (browser σ)).
    assert (id <$> ws = (map_to_list (browser σ)).*1) as Hids.
    { subst ws. by rewrite <- list_fmap_compose. }
    assert (∀ w, w ∈ ws → is_open σ (id w)) as Hopen.
    { intros w Hw. subst ws. apply list_elem_of_fmap in Hw as ([i win] & -> & Hin).
      apply elem_of_map_to_list in Hin. by exists win. }
    exists ws,
      (windows_getAll :: ((fun w => sessions_getWindowValue (id w) "uuid") <$> ws)),
      (windowMap (updateWindowMap (identity_map σ ws)
                    (perform ((windows_getAll
                                 :: ((fun w => sessions_getWindowValue (id w) "uuid")
                                       <$> ws))
                              ++ assign_calls (identities σ ws)) σ))).
    split_and!.
    + rewrite Hids. apply NoDup_fst_map_to_list.
    + done.
    + constructor; [done|]. apply Forall_fmap, Forall_true. done.
    + intros _ i [win Hi]. rewrite Hids. apply list_elem_of_fmap.
      exists (i, win). split; [done|]. by apply elem_of_map_to_list.
    + done.
    + cbn zeta.
      unfold main, await. rewrite (surjective_pairing (getAll σ)).
      rewrite getAll_world. cbn [snd getAll]. fold ws.
      rewrite makeWindowMap_spec
        by (intros w Hw; apply is_open_perform; by apply Hopen).
      cbn zeta. rewrite perform_app.
      change (assignments (uuids ?τ) (drawn ?τ) _) with (identities τ ws).
      assert (identities (perform [windows_getAll] σ) ws = identities σ ws) as ->.
      { unfold identities. cbn [uuids drawn perform].
        assert (length (filter is_randomUUID [windows_getAll]) = 0) as -> by done.
        by rewrite Nat.add_0_r. }
      done.
    + done.
  - exists [w], [sessions_getWindowValue (id w) "uuid"], (identity_map σ [w]).
    assert (∀ w', w' ∈ [w] → is_open σ (id w')) as Hopen'.
    { intros w' Hw'. by apply list_elem_of_singleton in Hw' as ->. }
    split_and!.
    + apply NoDup_singleton.
    + done.
    + by repeat constructor.
    + done.
    + by intros w' [= ->].
    + cbn zeta. unfold handleWindowCreated, await. by rewrite makeWindowMap_spec.
    + done.
Qed.
End opening.

(** ** More on tables *)

Section JsMap_more.
Context {V : Type}.
Implicit Types (m es : JsMap.t V) (k : string) (v : V).

Lemma set_same m k v : JsMap.get m k = Some v → JsMap.set m k v = m.
Proof.
  induction m as [|[k' v'] m IH]; cbn; [done|].
  destruct (decide (k' = k)) as [->|Hne].
  - by intros [= ->].
  - intros H. by rewrite IH.
Qed.

Lemma set_all_same es m :
  (∀ k v, (k, v) ∈ es → JsMap.get m k = Some v) → JsMap.set_all m es = m.
Proof.
  revert m. induction es as [|[k v] es IH]; intros m Hes; [done|].
  rewrite set_all_cons, set_same.
  - apply IH. intros k' v' Hin. apply Hes, elem_of_cons. by right.
  - apply Hes, elem_of_cons. by left.
Qed.

(** An entry found in a table built from entries is one of the entries. *)
Lemma get_set_all_elem es m k v :
  JsMap.get (JsMap.set_all m es) k = Some v → (k, v) ∈ es ∨ JsMap.get m k = Some v.
Proof.
  revert m. induction es as [|[k' v'] es IH]; intros m; [by right|].
  rewrite set_all_cons. intros H. apply IH in H as [H|H].
  - left. apply elem_of_cons. by right.
  - rewrite get_set in H. destruct (decide (k' = k)) as [->|Hne]; [|by right].
    injection H as ->. left. apply elem_of_cons. by left.
Qed.

Lemma get_of_entries_elem es k v :
  JsMap.get (JsMap.of_entries es) k = Some v → (k, v) ∈ es.
Proof. intros H. by apply get_set_all_elem in H as [H|H]. Qed.

Lemma keys_of_entries es k : k ∈ JsMap.keys (JsMap.of_entries es) ↔ k ∈ es.*1.
Proof.
  unfold JsMap.of_entries. rewrite keys_set_all. unfold JsMap.keys. cbn.
  rewrite elem_of_nil. tauto.
Qed.
End JsMap_more.

(** ** The worlds the opening handlers leave *)

Section opening_world.
Implicit Types (σ : World) (ws : list WindowRef) (u : UUID) (i : WindowID) (f : bool).

Lemma identities_window σ ws u i f :
  (u, i, f) ∈ identities σ ws →
  i ∈ id <$> ws ∧
  (if f then stored σ i "uuid" = None else stored σ i "uuid" = Some u).
Proof.
  unfold identities. intros Hin. destruct f.
  - destruct (assignments_new _ _ _ _ _ Hin) as (w & k & Hw & -> & _).
    apply list_elem_of_fmap in Hw as (w' & [= <- Hnone] & Hw').
    split; [by apply list_elem_of_fmap_2 | done].
  - destruct (assignments_old _ _ _ _ _ Hin) as (w & Hw & ->).
    apply list_elem_of_fmap in Hw as (w' & [= <- Hsome] & Hw').
    split; [by apply list_elem_of_fmap_2 | done].
Qed.

Lemma identities_total σ ws w :
  w ∈ ws → ∃ u f, (u, id w, f) ∈ identities σ ws.
Proof.
  intros Hw. unfold identities.
  destruct (assignments_elem (uuids σ) (drawn σ)
              ((fun w => (w, stored σ (id w) "uuid")) <$> ws) w
              (stored σ (id w) "uuid")) as (u & f & Hin & _).
  - apply list_elem_of_fmap. by exists w.
  - eauto.
Qed.

Lemma identities_unique σ ws u u' i f f' :
  NoDup (id <$> ws) →
  (u, i, f) ∈ identities σ ws → (u', i, f') ∈ identities σ ws → u = u' ∧ f = f'.
Proof.
  intros Hnd H1 H2.
  assert (NoDup ((fun x : string * nat * bool => x.1.2) <$> identities σ ws)) as Hnd'.
  { unfold identities. rewrite assignments_ids, <- list_fmap_compose. done. }
  by pose proof (NoDup_fmap_eq _ _ _ _ Hnd' H1 H2 eq_refl) as [= -> ->].
Qed.

Lemma identity_map_elem σ ws u i :
  JsMap.get (identity_map σ ws) u = Some i → ∃ f, (u, i, f) ∈ identities σ ws.
Proof.
  intros H. apply get_of_entries_elem in H.
  apply list_elem_of_fmap in H as ([[u' i'] f] & [= -> ->] & Hin). eauto.
Qed.

(** The writes of an opening handler: new identities, and markers. *)
Lemma opening_writes σ ws pre post i wr :
  Forall is_read pre → Forall request_call post →
  (i, wr) ∈ (pre ++ assign_calls (identities σ ws) ++ post) ≫= writes_of →
  (∃ u, (u, i, true) ∈ identities σ ws ∧ wr = SetValue "uuid" u)
  ∨ (∃ u, wr = SetTitle (marker u)).
Proof.
  intros Hpre Hpost. rewrite !bind_app, !elem_of_app.
  intros [Hin|[Hin|Hin]].
  - exfalso. apply list_elem_of_bind in Hin as (c & Hin & Hc).
    rewrite Forall_forall in Hpre. specialize (Hpre c Hc).
    destruct c; try done; by apply elem_of_nil in Hin.
  - left. by apply assign_writes.
  - right. apply list_elem_of_bind in Hin as (c & Hin & Hc).
    rewrite Forall_forall in Hpost. specialize (Hpost c Hc).
    destruct c as [| | [?|] ?| | |]; cbn in Hin, Hpost;
      try done; try (by apply elem_of_nil in Hin).
    apply list_elem_of_singleton in Hin as [= -> ->]. destruct Hpost as [u ->].
    eauto.
Qed.

(** The world an opening handler leaves. *)
Lemma opening_handler_world e σ :
  e = Startup ∨ (∃ w, e = Created w ∧ is_open σ (id w)) →
  ∃ ws pre post,
    NoDup (id <$> ws)
    ∧ (∀ w, w ∈ ws → is_open σ (id w))
    ∧ Forall is_read pre ∧ Forall request_call post
    ∧ (e = Startup → ∀ i, is_open σ i → i ∈ id <$> ws)
    ∧ (∀ w, e = Created w → ws = [w])
    ∧ (handler e σ).1 =
      updateWindowMap (identity_map σ ws)
        (perform (pre ++ assign_calls (identities σ ws) ++ post) σ).
Proof.
  intros He.
  destruct (opening_handler_shape e σ He)
    as (ws & pre & byUUID & Hnd & Hopen & Hpre & Hall & Hone & Heq & _).
  cbn zeta in Heq. rewrite Heq.
  destruct (sync_request_world byUUID
              (updateWindowMap (identity_map σ ws)
                 (perform (pre ++ assign_calls (identities σ ws)) σ)))
    as (post & -> & Hpost).
  exists ws, pre, post. split_and!; try done.
  change (perform post (updateWindowMap ?m ?τ))
    with (updateWindowMap m (perform post τ)).
  by rewrite perform_app, <- app_assoc.
Qed.

(** After an opening handler, each of its windows has the identity the
    handler settled on as its stored ['uuid']. *)
Lemma opening_stored_uuid σ ws pre post u i f :
  NoDup (id <$> ws) → (∀ w, w ∈ ws → is_open σ (id w)) →
  Forall is_read pre → Forall request_call post →
  (u, i, f) ∈ identities σ ws →
  stored (perform (pre ++ assign_calls (identities σ ws) ++ post) σ) i "uuid"
  = Some u.
Proof.
  intros Hnd Hopen Hpre Hpost Hin.
  destruct (identities_window σ ws u i f Hin) as [Hi Hf].
  destruct f.
  - apply list_elem_of_fmap in Hi as (w & -> & Hw).
    destruct (Hopen w Hw) as [win Hwin].
    unfold stored. cbn [browser perform]. rewrite lookup_apply_writes, Hwin. cbn.
    apply final_values_agree.
    + intros v Hv.
      apply (opening_writes σ ws pre post) in Hv as [(u' & Hin' & [= ->])|(? & [=])];
        [|done..].
      by destruct (identities_unique σ ws u u' (id w) true true Hnd Hin Hin').
    + exists u. rewrite !bind_app, !elem_of_app. right. left.
      apply assign_writes. eauto.
  - rewrite stored_perform_untouched; [done|]. intros v Hv.
    apply (opening_writes σ ws pre post) in Hv as [(u' & Hin' & _)|(? & [=])];
      [|done..].
    destruct (identities_window σ ws u' i true Hin') as [_ Hnone]. congruence.
Qed.

Lemma opening_stored_kept σ ws pre post i key v :
  Forall is_read pre → Forall request_call post →
  stored σ i key = Some v →
  stored (perform (pre ++ assign_calls (identities σ ws) ++ post) σ) i key
  = Some v.
Proof.
  intros Hpre Hpost Hv. rewrite stored_perform_untouched; [done|].
  intros v' Hv'.
  apply (opening_writes σ ws pre post) in Hv' as [(u' & Hin' & [= -> ->])|(? & [=])];
    [|done..].
  destruct (identities_window σ ws u' i true Hin') as [_ Hnone]. congruence.
Qed.

Lemma opening_stored_other σ ws pre post i key :
  Forall is_read pre → Forall request_call post →
  key ≠ "uuid" →
  stored (perform (pre ++ assign_calls (identities σ ws) ++ post) σ) i key
  = stored σ i key.
Proof.
  intros Hpre Hpost Hkey. apply stored_perform_untouched. intros v' Hv'.
  by apply (opening_writes σ ws pre post) in Hv' as [(u' & Hin' & [= -> ->])|(? & [=])].
Qed.
End opening_world.

(** ** One event at a time *)

Section steps.
Implicit Types (σ : World) (e : Event) (u : UUID) (i : WindowID).

Lemma host_message_stored cs σ i key :
  Forall host_message_call cs → key ≠ "workspace" →
  stored (perform cs σ) i key = stored σ i key.
Proof.
  intros Hcs Hkey. apply stored_perform_untouched. intros v Hv.
  apply list_elem_of_bind in Hv as (c & Hv & Hc).
  rewrite Forall_forall in Hcs. specialize (Hcs c Hc).
  destruct c as [? ?|[w|] ? [?|?]|[w|] ?| | |?]; cbn in Hv, Hcs;
    try (by apply elem_of_nil in Hv).
  - apply list_elem_of_singleton in Hv as [= -> -> ->]. done.
  - by apply list_elem_of_singleton in Hv.
Qed.

(** The three ways an event is handled. *)
Lemma handler_cases e σ :
  (∃ message, e = Message message)
  ∨ (∃ w, e = Created w ∧ ¬ is_open σ (id w)
          ∧ handler e σ = (perform [sessions_getWindowValue (id w) "uuid"] σ,
                           Rejected (InvalidWindowID (id w))))
  ∨ (e = Startup ∨ ∃ w, e = Created w ∧ is_open σ (id w)).
Proof.
  destruct e as [|w|message]; [by right; right; left| |by left; eexists].
  destruct (browser σ !! id w) as [win|] eqn:Hw.
  - right. right. right. exists w. split; [done|]. by exists win.
  - right. left. exists w.
    assert (¬ is_open σ (id w)) as Hclosed.
    { unfold is_open. rewrite Hw. by intros [? [=]]. }
    split_and!; [done..|].
    cbn [handler]. unfold handleWindowCreated, await.
    by rewrite (makeWindowMap_closed w σ Hclosed).
Qed.

Lemma handler_stored_uuid e σ i u :
  stored σ i "uuid" = Some u → stored (handler e σ).1 i "uuid" = Some u.
Proof.
  intros Hu.
  destruct (handler_cases e σ) as [[message ->]|[(w & -> & _ & ->)|He]].
  - cbn [handler].
    destruct (handleHostMessage_world message σ) as (old & new & cs & -> & Hcs).
    change (stored (set_globals old new (perform cs σ)) i "uuid")
      with (stored (perform cs σ) i "uuid").
    by rewrite host_message_stored.
  - cbn [fst]. rewrite stored_perform_untouched; [done|].
    intros v Hv. by apply elem_of_nil in Hv.
  - destruct (opening_handler_world e σ He)
      as (ws & pre & post & _ & _ & Hpre & Hpost & _ & _ & ->).
    change (stored (updateWindowMap ?m ?τ) i "uuid") with (stored τ i "uuid").
    by apply opening_stored_kept.
Qed.

Lemma handler_is_open e σ i : is_open (handler e σ).1 i ↔ is_open σ i.
Proof.
  destruct (handler_cases e σ) as [[message ->]|[(w & -> & _ & ->)|He]].
  - cbn [handler].
    destruct (handleHostMessage_world message σ) as (old & new & cs & -> & Hcs).
    change (is_open (set_globals old new (perform cs σ)) i)
      with (is_open (perform cs σ) i).
    apply is_open_perform.
  - apply is_open_perform.
  - destruct (opening_handler_world e σ He)
      as (ws & pre & post & _ & _ & Hpre & Hpost & _ & _ & ->).
    change (is_open (updateWindowMap ?m ?τ) i) with (is_open τ i).
    apply is_open_perform.
Qed.

(** What an event does to [windowMap]: nothing, or the identities of the
    windows it opened are merged in. *)
Lemma handler_windowMap e σ :
  windowMap (handler e σ).1 = windowMap σ
  ∨ ∃ ws, NoDup (id <$> ws) ∧ (∀ w, w ∈ ws → is_open σ (id w))
          ∧ windowMap (handler e σ).1 =
            JsMap.of_entries (windowMap σ ++ identity_map σ ws)
          ∧ ∀ u i f, (u, i, f) ∈ identities σ ws →
                     stored (handler e σ).1 i "uuid" = Some u.
Proof.
  destruct (handler_cases e σ) as [[message ->]|[(w & -> & _ & ->)|He]].
  - left. cbn [handler].
    by destruct (handleHostMessage_world message σ) as (old & new & cs & -> & Hcs).
  - by left.
  - right. destruct (opening_handler_world e σ He)
      as (ws & pre & post & Hnd & Hopen & Hpre & Hpost & _ & _ & ->).
    exists ws. split_and!; [done..|].
    intros u i f Hin.
    change (stored (updateWindowMap ?m ?τ) i "uuid") with (stored τ i "uuid").
    by apply (opening_stored_uuid σ ws pre post u i f).
Qed.

Lemma handler_consistent e σ :
  JsMap.wf (windowMap σ) → consistent σ →
  JsMap.wf (windowMap (handler e σ).1) ∧ consistent (handler e σ).1.
Proof.
  intros Hwf Hcons.
  destruct (handler_windowMap e σ) as [Heq|(ws & Hnd & Hopen & Heq & Hnew)];
    rewrite Heq.
  - split; [done|]. intros u i Hu. rewrite Heq in Hu.
    destruct (Hcons u i Hu) as [Hi Hs]. split.
    + by apply handler_is_open.
    + by apply handler_stored_uuid.
  - split; [apply wf_of_entries|]. intros u i Hu. rewrite Heq in Hu.
    apply get_of_entries_elem, elem_of_app in Hu as [Hu|Hu].
    + apply (elem_of_get _ _ _ Hwf) in Hu. destruct (Hcons u i Hu) as [Hi Hs].
      split; [by apply handler_is_open | by apply handler_stored_uuid].
    + apply elem_of_get in Hu; [|apply wf_of_entries].
      apply identity_map_elem in Hu as [f Hin]. split.
      * apply handler_is_open.
        destruct (identities_window σ ws u i f Hin) as [Hi _].
        apply list_elem_of_fmap in Hi as (w & -> & Hw). by apply Hopen.
      * by apply (Hnew u i f).
Qed.
End steps.



(** X4.  [windowMap] only grows: an identity that is in it stays in it
    through any sequence of events (the window it leads to may change when
    another window shows up with the same stored identity). *)
Theorem windowMap_grows (es : list Event) (σ : World) (u : UUID) :
  u ∈ JsMap.keys (windowMap σ) → u ∈ JsMap.keys (windowMap (run es σ)).
Proof.
  revert σ. induction es as [|e es IH]; intros σ Hu; [done|].
  apply (IH (handler e σ).1).
  destruct (handler_windowMap e σ) as [->|(ws & _ & _ & -> & _)]; [done|].
  apply keys_of_entries. rewrite fmap_app. apply elem_of_app. by left.
Qed.

Section opening_stored.
Implicit Types (σ : World) (e : Event) (i : WindowID).

Lemma opening_stored_other_key e σ i key :
  (∀ message, e ≠ Message message) → key ≠ "uuid" →
  stored (handler e σ).1 i key = stored σ i key.
Proof.
  intros Hopening Hkey.
  destruct (handler_cases e σ) as [[message ->]|[(w & -> & _ & ->)|He]].
  - by destruct (Hopening message).
  - apply stored_perform_untouched. intros v Hv. by apply elem_of_nil in Hv.
  - destruct (opening_handler_world e σ He)
      as (ws & pre & post & _ & _ & Hpre & Hpost & _ & _ & ->).
    change (stored (updateWindowMap ?m ?τ) i key) with (stored τ i key).
    by apply opening_stored_other.
Qed.
End opening_stored.

(** X5.  Startup and the creation of a window store identities and nothing
    else: [main] and [handleWindowCreated] leave every session value under a
    key other than ['uuid'] as it is, in every window.  So the ['workspace']
    values, which the host reads from the sync request, are only ever changed
    by host messages. *)
Theorem opening_keeps_other_values (σ : World) (w : WindowRef) (i : WindowID)
    (key : string) :
  key ≠ "uuid" →
  stored (main σ).1 i key = stored σ i key
  ∧ stored (handleWindowCreated w σ).1 i key = stored σ i key.
Proof.
  intros Hkey. split.
  - by apply (opening_stored_other_key Startup).
  - by apply (opening_stored_other_key (Created w)).
Qed.

(** X6.  After [main], every open window has an identity: a stored
    ['uuid'] that [windowMap] knows.  For a window that had a stored
    identity it is that one. *)
Theorem startup_assigns_identities (σ : World) (i : WindowID) :
  is_open σ i →
  let σ' := (main σ).1 in
  ∃ u, stored σ' i "uuid" = Some u
       ∧ u ∈ JsMap.keys (windowMap σ')
       ∧ (∀ u0, stored σ i "uuid" = Some u0 → u = u0).
Proof.
  intros Hi σ'. subst σ'.
  destruct (opening_handler_world Startup σ (or_introl eq_refl))
    as (ws & pre & post & Hnd & Hopen & Hpre & Hpost & Hall & _ & Heq).
  cbn [handler] in Heq. rewrite Heq.
  specialize (Hall eq_refl i Hi). apply list_elem_of_fmap in Hall as (w & -> & Hw).
  destruct (identities_total σ ws w Hw) as (u & f & Hin).
  exists u. split_and!.
  - change (stored (updateWindowMap ?m ?τ) ?j "uuid") with (stored τ j "uuid").
    by apply (opening_stored_uuid σ ws pre post u (id w) f).
  - cbn [windowMap updateWindowMap set_windowMap perform].
    apply keys_of_entries. rewrite fmap_app. apply elem_of_app. right.
    apply keys_of_entries, list_elem_of_fmap. exists (u, id w). split; [done|].
    apply list_elem_of_fmap. by exists (u, id w, f).
  - intros u0 Hu0. destruct (identities_window σ ws u (id w) f Hin) as [_ Hf].
    destruct f; congruence.
Qed.

(** X7.  A window that is closed again by the time [handleWindowCreated]
    reads its identity: the read is the only call made, the handler's
    promise is rejected with the browser's error, [windowMap] is unchanged
    and nothing is posted to the host. *)
Theorem window_created_and_closed (w : WindowRef) (σ : World) :
  ¬ is_open σ (id w) →
  let σ' := (handleWindowCreated w σ).1 in
  (handleWindowCreated w σ).2 = Rejected (InvalidWindowID (id w))
  ∧ calls σ' = calls σ ++ [sessions_getWindowValue (id w) "uuid"]
  ∧ windowMap σ' = windowMap σ
  ∧ browser σ' = browser σ.
Proof.
  intros Hclosed σ'. subst σ'.
  destruct (handler_cases (Created w) σ) as [[? [=]]|[(w' & [= <-] & _ & Heq)|He]].
  - cbn [handler] in Heq. by rewrite Heq.
  - exfalso. by destruct He as [[=]|(w' & [= <-] & Hopen)].
Qed.

(** X9.  Merging the same table into [windowMap] a second time changes
    nothing. *)
Theorem updateWindowMap_idempotent (wmap : JsMap.t WindowID) (σ : World) :
  JsMap.wf wmap →
  updateWindowMap wmap (updateWindowMap wmap σ) = updateWindowMap wmap σ.
Proof.
  intros Hwf. unfold updateWindowMap.
  set (m := JsMap.of_entries (windowMap σ ++ wmap)).
  change (windowMap (set_windowMap m σ)) with m.
  assert (JsMap.of_entries (m ++ wmap) = m) as ->; [|done].
  unfold JsMap.of_entries at 1. rewrite set_all_app.
  change (JsMap.set_all [] m) with (JsMap.of_entries m).
  rewrite of_entries_wf by apply wf_of_entries.
  apply set_all_same. intros k v Hin. subst m.
  unfold JsMap.of_entries. rewrite set_all_app, get_set_all by done.
  by rewrite (elem_of_get _ _ _ Hwf Hin).
Qed.

(** X10.  A rename is applied to every window at once, from the workspace
    names as they were: with [payload] in a ['workspace::rename']
    notification, an open window whose stored workspace is a key of the
    payload gets the name stored under that key (also when that name is
    itself a key of the payload, as in a swap), and a window whose stored
    workspace is no key of the payload, and not the name of a member of
    [Object.prototype], keeps it. *)
Theorem rename_simultaneous (message : Notification) (payload : JsMap.t string)
    (σ : World) (w : WindowID) (name : string) :
  truthy (windows message) = None →
  truthy (window_move message) = None →
  truthy (workspace_rename message) = Some payload →
  is_open σ w →
  stored σ w "workspace" = Some name →
  let σ' := (handleHostMessage message σ).1 in
  (∀ new, JsMap.get payload name = Some new → stored σ' w "workspace" = Some new)
  ∧ (JsMap.get payload name = None → name ∉ Object_prototype →
     stored σ' w "workspace" = Some name).
Proof.
  intros H1 H2 H3 Hopen Hname σ'. subst σ'.
  unfold handleHostMessage. rewrite H1, H2, H3.
  rewrite workspaceRenamed_stored by done. rewrite Hname. cbn [toPropertyKey].
  unfold obj_get. split.
  - intros new ->. done.
  - intros -> Hproto. by rewrite bool_decide_eq_false_2.
Qed.

(** X11.  Only a sync response touches title prefaces: a host message
    whose [windows] property is not truthy (a ['window::move'] or
    ['workspace::rename'] notification, or anything else) leaves the title
    preface of every window as it is. *)
Theorem notification_keeps_titles (message : Notification) (σ : World) (i : WindowID) :
  truthy (windows message) = None →
  title (handleHostMessage message σ).1 i = title σ i.
Proof.
  intros Hw.
  assert (made no_update σ (handleHostMessage message σ).1) as (cs & [_ Hb] & Hcs).
  { destruct (truthy (window_move message)) as [payload|] eqn:Hm.
    - by apply (made_handleHostMessage_move no_update (fun c H => H) message payload σ).
    - unfold handleHostMessage. rewrite Hw, Hm.
      destruct (truthy (workspace_rename message)) as [payload|].
      + by apply made_workspaceRenamed.
      + exists []. split; [apply effects_refl | constructor]. }
  unfold title. rewrite Hb, lookup_apply_writes.
  destruct (browser σ !! i) as [win|]; [|done]. cbn. f_equal.
  apply final_title_untouched. intros q Hq.
  apply list_elem_of_bind in Hq as (c & Hq & Hc).
  rewrite Forall_forall in Hcs. specialize (Hcs c Hc).
  destruct c as [? ?|[?|] ? [?|?]|[?|] ?| | |?]; cbn in Hq, Hcs;
    try done; try (by apply elem_of_nil in Hq).
  by apply list_elem_of_singleton in Hq.
Qed.

Section created.
Implicit Types (σ : World) (w : WindowRef) (i j : WindowID).

Lemma browser_perform_other cs σ j :
  (∀ wr, (j, wr) ∉ cs ≫= writes_of) →
  browser (perform cs σ) !! j = browser σ !! j.
Proof.
  intros Hno. cbn [browser perform]. rewrite lookup_apply_writes.
  destruct (browser σ !! j) as [[t m]|]; [|done]. cbn. do 2 f_equal.
  - apply final_title_untouched. intros q. apply Hno.
  - apply map_eq. intros k. apply final_values_untouched. intros v. apply Hno.
Qed.

(** [handleWindowCreated] for a window that is open, call by call. *)
Lemma handleWindowCreated_open w σ :
  is_open σ (id w) →
  let u := default (uuids σ (drawn σ)) (stored σ (id w) "uuid") in
  let fresh := if stored σ (id w) "uuid" is Some _ then false else true in
  handleWindowCreated w σ =
  (updateWindowMap [(u, id w)]
     (perform ([sessions_getWindowValue (id w) "uuid"]
               ++ assign_calls [(u, id w, fresh)]
               ++ [sessions_getWindowValue (id w) "workspace";
                   windows_update (Some (id w)) (marker u);
                   host_postMessage
                     {| request_windows :=
                          [(u, or_null (stored σ (id w) "workspace"))] |}]) σ),
   Fulfilled tt).
Proof.
  intros Hopen u fresh.
  unfold handleWindowCreated, await.
  rewrite makeWindowMap_spec
    by (intros w' Hw'; by apply list_elem_of_singleton in Hw' as ->).
  cbn zeta. cbn [fmap list_fmap].
  assert (assignments (uuids σ) (drawn σ) [(w, stored σ (id w) "uuid")]
          = [(u, id w, fresh)]) as ->.
  { subst u fresh. by destruct (stored σ (id w) "uuid"). }
  cbn [fmap list_fmap fst].
  change (JsMap.of_entries [(u, id w)]) with [(u, id w)].
  set (cs := [sessions_getWindowValue (id w) "uuid"] ++ assign_calls [(u, id w, fresh)]).
  rewrite sync_request_spec. cbn zeta. cbn [fmap list_fmap fst snd beacon_calls].
  assert (is_open (updateWindowMap [(u, id w)] (perform cs σ)) (id w)) as Hopen'.
  { by apply (is_open_perform cs σ (id w)). }
  rewrite (read_of_open _ _ _ Hopen').
  assert (stored (updateWindowMap [(u, id w)] (perform cs σ)) (id w) "workspace"
          = stored σ (id w) "workspace") as ->.
  { apply stored_perform_untouched. intros v Hv. subst cs.
    apply elem_of_app in Hv as [Hv|Hv]; [by apply elem_of_nil in Hv|].
    by apply assign_writes in Hv as (? & _ & [=]). }
  cbn [settled_map Promise_all fst snd answer].
  destruct Hopen' as [win' Hwin'].
  change (browser (updateWindowMap [(u, id w)] (perform cs σ)))
    with (browser (perform cs σ)) in *.
  rewrite Hwin'. cbn [settled_map Promise_all].
  change (perform ?a (updateWindowMap ?m ?τ)) with (updateWindowMap m (perform a τ)).
  apply (f_equal (fun τ => (τ, Fulfilled tt))). subst cs.
  change (perform ?a (updateWindowMap ?m ?τ)) with (updateWindowMap m (perform a τ)).
  apply (f_equal (updateWindowMap _)).
  match goal with
  | |- _ = perform (_ ++ _ ++ [?a; ?b; ?c]) _ =>
      change [a; b; c] with ([a] ++ [b] ++ [c])
  end.
  by rewrite !perform_app.
Qed.
End created.

(** X8.  What [handleWindowCreated] does for a window that is open.  With
    [u] the window's stored ['uuid'], or the next UUID drawn when it has
    none: the handler's promise is fulfilled, [u] is the window's stored
    ['uuid'], [windowMap] maps [u] to the window, the window's title preface
    is the marker of [u], and the last call made is the post of a sync
    request with the one entry [u], with the window's stored ['workspace'], or
    [null].  No other window is changed. *)
Theorem window_created_registered (w : WindowRef) (σ : World) :
  is_open σ (id w) →
  let u := default (uuids σ (drawn σ)) (stored σ (id w) "uuid") in
  let σ' := (handleWindowCreated w σ).1 in
  (handleWindowCreated w σ).2 = Fulfilled tt
  ∧ stored σ' (id w) "uuid" = Some u
  ∧ JsMap.get (windowMap σ') u = Some (id w)
  ∧ title σ' (id w) = Some (marker u)
  ∧ last (calls σ') =
    Some (host_postMessage
            {| request_windows := [(u, or_null (stored σ (id w) "workspace"))] |})
  ∧ ∀ j, j ≠ id w → browser σ' !! j = browser σ !! j.
Proof.
  intros Hopen u σ'. subst σ'.
  rewrite (handleWindowCreated_open w σ Hopen). cbn zeta. cbn [fst snd]. fold u.
  set (fresh := if stored σ (id w) "uuid" is Some _ then false else true).
  set (request := {| request_windows := _ |}).
  set (cs := _ ++ _ ++ _).
  assert (∀ j wr, (j, wr) ∈ cs ≫= writes_of →
                  j = id w ∧ (wr = SetTitle (marker u)
                              ∨ wr = SetValue "uuid" u
                                ∧ stored σ (id w) "uuid" = None)) as Hwrites.
  { intros j wr. subst cs. rewrite !bind_app, !elem_of_app.
    intros [Hin|[Hin|Hin]].
    - by apply elem_of_nil in Hin.
    - apply assign_writes in Hin as (u' & Hin & ->).
      apply list_elem_of_singleton in Hin as [= -> -> Hfresh].
      split; [done|]. right. split; [done|]. subst fresh.
      by destruct (stored σ (id w) "uuid").
    - cbn in Hin. apply list_elem_of_singleton in Hin as [= -> ->]. auto. }
  assert (stored σ (id w) "uuid" = None →
          (id w, SetValue "uuid" u) ∈ cs ≫= writes_of) as Hset.
  { intros Hnone. subst cs. rewrite !bind_app, !elem_of_app. right. left.
    apply assign_writes. exists u. split; [|done].
    subst fresh. rewrite Hnone. by apply list_elem_of_singleton. }
  assert ((id w, SetTitle (marker u)) ∈ cs ≫= writes_of) as Hmark.
  { subst cs. rewrite !bind_app, !elem_of_app. right. right.
    cbn. by apply list_elem_of_singleton. }
  assert (last (calls σ ++ cs) = Some (host_postMessage request)) as Hlast.
  { subst cs. rewrite !app_assoc.
    change [?a; ?b; ?c] with ([a; b] ++ [c]). rewrite app_assoc. apply last_snoc. }
  clearbody cs fresh request.
  destruct Hopen as [win Hwin].
  split_and!.
  - done.
  - change (stored (updateWindowMap ?m ?τ) ?j ?k) with (stored τ j k).
    destruct (stored σ (id w) "uuid") as [u0|] eqn:Hu0.
    + rewrite stored_perform_untouched; [done|]. intros v Hv.
      by apply Hwrites in Hv as [_ [[=]|[_ [=]]]].
    + unfold stored. cbn [browser perform]. rewrite lookup_apply_writes, Hwin. cbn.
      apply final_values_agree.
      * intros v Hv. by apply Hwrites in Hv as [_ [[=]|[[= ->] _]]].
      * exists u. by apply Hset.
  - cbn [windowMap updateWindowMap set_windowMap].
    unfold JsMap.of_entries. rewrite set_all_app. cbn [JsMap.set_all fold_left fst snd].
    apply get_set_eq.
  - unfold title. cbn [browser updateWindowMap set_windowMap perform].
    rewrite lookup_apply_writes, Hwin. cbn. f_equal.
    apply final_title_agree.
    + intros q Hq. by apply Hwrites in Hq as [_ [[= ->]|[[=] _]]].
    + by exists (marker u).
  - done.
  - intros j Hj.
    change (browser (updateWindowMap ?m ?τ)) with (browser τ).
    apply browser_perform_other. intros wr Hwr.
    by apply Hwrites in Hwr as [-> _].
Qed.

(** ** Placements applied *)

Section placements.
Implicit Types (σ : World) (payload : JsMap.t string) (wm : JsMap.t WindowID).

Lemma move_writes wm payload :
  (∀ u, u ∈ JsMap.keys payload → is_Some (JsMap.get wm u)) →
  ∀ w wr,
    (w, wr) ∈ until_throw (move_calls wm payload) ≫= writes_of ↔
    ∃ u ws, (u, ws) ∈ payload ∧ JsMap.get wm u = Some w
            ∧ wr = SetValue "workspace" ws.
Proof.
  intros Hknown w wr.
  apply find_throws_known, find_throws_clear_move in Hknown.
  rewrite until_throw_no_throw by done.
  rewrite list_elem_of_bind. unfold move_calls. split.
  - intros (c & Hwr & Hin).
    apply list_elem_of_fmap in Hin as ([u ws] & -> & Hin). cbn in Hwr.
    destruct (JsMap.get wm u) as [w'|] eqn:Hu'; [|by apply elem_of_nil in Hwr].
    apply list_elem_of_singleton in Hwr as [= -> ->]. exists u, ws. auto.
  - intros (u & ws & Hin & Hu & ->).
    exists (sessions_setWindowValue (JsMap.get wm u) "workspace" (Str ws)). split.
    + rewrite Hu. by apply list_elem_of_singleton.
    + apply list_elem_of_fmap. by exists (u, ws).
Qed.

(** The value stored by writes that name a window through one identity. *)
Lemma placement_stored (writes : list (nat * Write)) wm payload σ u ws w :
  (∀ v, (w, SetValue "workspace" v) ∈ writes ↔
        ∃ u' ws', (u', ws') ∈ payload ∧ JsMap.get wm u' = Some w ∧ v = ws') →
  JsMap.wf payload →
  (u, ws) ∈ payload → JsMap.get wm u = Some w → is_open σ w →
  (∀ u', u' ∈ JsMap.keys payload → JsMap.get wm u' = Some w → u' = u) →
  (apply_writes writes (browser σ) !! w) ≫= (fun win => values win !! "workspace")
  = Some ws.
Proof.
  intros HW Hwf Hin Hu [win Hw] Hinj.
  rewrite lookup_apply_writes, Hw. cbn.
  apply final_values_agree.
  - intros v Hv. apply HW in Hv as (u' & ws' & Hin' & Hu' & ->).
    assert (u' = u) as ->.
    { apply Hinj; [|done]. apply list_elem_of_fmap. by exists (u', ws'). }
    apply (elem_of_get payload) in Hin, Hin'; [|done..]. congruence.
  - exists ws. apply HW. eauto.
Qed.

Lemma answers_fulfilled cs (b : gmap nat Window) :
  (∀ c, c ∈ cs → answer c b = Fulfilled tt) →
  settled_map (fun _ => tt) (Promise_all ((fun c => answer c b) <$> cs))
  = Fulfilled tt.
Proof.
  induction cs as [|c cs IH]; intros Hcs; [done|].
  rewrite fmap_cons, (Hcs c) by (apply elem_of_cons; by left).
  cbn [Promise_all].
  destruct (Promise_all ((fun c => answer c b) <$> cs)) as [l|e] eqn:Hall; [done|].
  exfalso. enough (Rejected e = Fulfilled tt) by done.
  apply IH. intros c' Hc'. apply Hcs, elem_of_cons. by right.
Qed.

Lemma clear_answers wm payload (b : gmap nat Window) c :
  (∀ u w, u ∈ JsMap.keys payload → JsMap.get wm u = Some w → is_Some (b !! w)) →
  (∀ u, u ∈ JsMap.keys payload → is_Some (JsMap.get wm u)) →
  c ∈ clear_calls wm payload ++ move_calls wm payload →
  answer c b = Fulfilled tt.
Proof.
  intros Hopen Hknown Hc.
  assert (∃ u w, u ∈ JsMap.keys payload ∧ JsMap.get wm u = Some w
                 ∧ (c = windows_update (Some w) ""
                    ∨ ∃ ws, c = sessions_setWindowValue (Some w) "workspace" (Str ws)))
    as (u & w & Hu & Hw & Hcase).
  { apply elem_of_app in Hc as [Hc|Hc].
    - apply list_elem_of_fmap in Hc as (u & -> & Hu).
      destruct (Hknown u Hu) as [w Hw]. exists u, w. rewrite Hw. auto.
    - apply list_elem_of_fmap in Hc as ([u ws] & -> & Hin).
      assert (u ∈ JsMap.keys payload) as Hu.
      { apply list_elem_of_fmap. by exists (u, ws). }
      destruct (Hknown u Hu) as [w Hw]. exists u, w. cbn. rewrite Hw. eauto. }
  destruct (Hopen u w Hu Hw) as [win Hwin].
  destruct Hcase as [->|[ws ->]]; cbn; by rewrite Hwin.
Qed.

Lemma response_outcome_fulfilled wm payload (b : gmap nat Window) :
  (∀ u, u ∈ JsMap.keys payload → is_Some (JsMap.get wm u)) →
  (∀ u w, u ∈ JsMap.keys payload → JsMap.get wm u = Some w → is_Some (b !! w)) →
  response_outcome wm payload b = Fulfilled tt.
Proof.
  intros Hknown Hopen. unfold response_outcome, completion.
  apply find_throws_known in Hknown as Hc. rewrite Hc.
  apply find_throws_clear_move in Hc as ->.
  cbn [all_settled]. rewrite <- fmap_app. apply answers_fulfilled.
  intros c Hc'. by apply (clear_answers wm payload).
Qed.

Lemma move_outcome_fulfilled wm payload (b : gmap nat Window) :
  (∀ u, u ∈ JsMap.keys payload → is_Some (JsMap.get wm u)) →
  (∀ u w, u ∈ JsMap.keys payload → JsMap.get wm u = Some w → is_Some (b !! w)) →
  all_settled (completion (move_calls wm payload) b) = Fulfilled tt.
Proof.
  intros Hknown Hopen. unfold completion.
  apply find_throws_known in Hknown as Hc.
  apply find_throws_clear_move in Hc as ->.
  cbn [all_settled]. apply answers_fulfilled.
  intros c Hc'. apply (clear_answers wm payload); [done..|].
  apply elem_of_app. by right.
Qed.
End placements.

(** X12.  A ['window::move'] notification whose identities are all in
    [windowMap]: a window that is open and is named by one identity of the
    payload gets that identity's placement as its stored ['workspace'] value;
    a window that no identity of the payload leads to is left as it is; and
    when all the windows named are open, the handler's promise is
    fulfilled. *)
Theorem window_move_applied (message : Notification) (payload : JsMap.t string)
    (σ : World) :
  truthy (windows message) = None →
  truthy (window_move message) = Some payload →
  JsMap.wf payload →
  (∀ u, u ∈ JsMap.keys payload → is_Some (JsMap.get (windowMap σ) u)) →
  let σ' := (handleHostMessage message σ).1 in
  (∀ u ws w, (u, ws) ∈ payload → JsMap.get (windowMap σ) u = Some w → is_open σ w →
             (∀ u', u' ∈ JsMap.keys payload →
                    JsMap.get (windowMap σ) u' = Some w → u' = u) →
             stored σ' w "workspace" = Some ws)
  ∧ (∀ j, (∀ u, u ∈ JsMap.keys payload → JsMap.get (windowMap σ) u ≠ Some j) →
          browser σ' !! j = browser σ !! j)
  ∧ ((∀ u w, u ∈ JsMap.keys payload → JsMap.get (windowMap σ) u = Some w →
             is_open σ w) →
     (handleHostMessage message σ).2 = Fulfilled tt).
Proof.
  intros Hw Hm Hwf Hknown σ'. subst σ'.
  rewrite (handleHostMessage_move message payload σ Hw Hm). cbn [fst snd].
  pose proof (move_writes (windowMap σ) payload Hknown) as HW.
  split_and!.
  - intros u ws w Hin Hu Hopen Hinj. unfold stored. cbn [browser perform].
    apply (placement_stored _ (windowMap σ) payload σ u ws w); try done.
    intros v. rewrite HW. split.
    + intros (u' & ws' & Hin' & Hu' & [= ->]). eauto.
    + intros (u' & ws' & Hin' & Hu' & ->). eauto.
  - intros j Hj. apply browser_perform_other. intros wr Hwr.
    apply HW in Hwr as (u & ws & Hin & Hu & _).
    apply (Hj u); [|done]. apply list_elem_of_fmap. by exists (u, ws).
  - intros Hopen. by apply move_outcome_fulfilled.
Qed.

(** X13.  A sync request answered.  Start from a [windowMap] that is
    consistent with the windows, let [main] or [handleWindowCreated] run to
    the end, so that a request is posted, and let the host answer with a
    sync response that names no identity outside the request.  Then the
    response is handled without an error, and every identity [u] it places
    leads to a window that still has [u] as its stored ['uuid'], has its
    marker removed (the empty title preface) and has the placement as its
    stored ['workspace']. *)
Theorem sync_request_answered (e : Event) (σ : World) (request : WindowsMessage)
    (message : Notification) (payload : JsMap.t string) :
  JsMap.wf (windowMap σ) → consistent σ →
  e = Startup ∨ (∃ w, e = Created w) →
  (handler e σ).2 = Fulfilled tt →
  let σ1 := (handler e σ).1 in
  last (calls σ1) = Some (host_postMessage request) →
  truthy (windows message) = Some payload →
  JsMap.wf payload →
  (∀ u, u ∈ JsMap.keys payload → u ∈ JsMap.keys (request_windows request)) →
  let σ2 := (handleHostMessage message σ1).1 in
  (handleHostMessage message σ1).2 = Fulfilled tt
  ∧ ∀ u ws, (u, ws) ∈ payload →
      ∃ i, JsMap.get (windowMap σ1) u = Some i
           ∧ stored σ2 i "uuid" = Some u
           ∧ title σ2 i = Some ""
           ∧ stored σ2 i "workspace" = Some ws.
Proof.
  intros Hwf Hcons He Hful σ1 Hlast Hm Hwfp Hsub σ2.
  destruct (handler_consistent e σ Hwf Hcons) as [Hwf1 Hcons1]. fold σ1 in Hwf1, Hcons1.
  assert (∀ u, u ∈ JsMap.keys payload →
               ∃ i, JsMap.get (windowMap σ1) u = Some i ∧ is_open σ1 i) as Hnamed.
  { destruct (request_posted e σ He Hful) as (σ0 & byUUID & pre & _ & Heq & Hagree).
    subst σ1. rewrite Heq in Hful, Hlast |- *.
    destruct (sync_request_lifecycle byUUID σ0 Hful Hagree)
      as (before & request' & Hcalls & _ & Hreq).
    rewrite Hcalls, app_assoc, last_snoc in Hlast. injection Hlast as <-.
    intros u Hu. destruct (Hreq u (Hsub u Hu)) as (i & Hi & _ & Hopen & _). eauto. }
  assert (∀ u, u ∈ JsMap.keys payload → is_Some (JsMap.get (windowMap σ1) u))
    as Hknown.
  { intros u Hu. destruct (Hnamed u Hu) as (i & -> & _). by eexists. }
  split.
  - rewrite (handleHostMessage_response message payload σ1 Hm). cbn [snd].
    apply response_outcome_fulfilled; [done|].
    intros u i Hu Hi. destruct (Hnamed u Hu) as (i' & Hi' & Hopen).
    by assert (i = i') as -> by congruence.
  - intros u ws Hin.
    assert (u ∈ JsMap.keys payload) as Hu.
    { apply list_elem_of_fmap. by exists (u, ws). }
    destruct (Hnamed u Hu) as (i & Hi & Hopen). exists i.
    destruct (Hcons1 u i Hi) as [_ Hstored].
    split_and!.
    + done.
    + by apply (handler_stored_uuid (Message message) σ1).
    + by apply (response_clears_title message payload σ1 u i).
    + subst σ2. rewrite (handleHostMessage_response message payload σ1 Hm).
      unfold stored. cbn [fst browser perform].
      apply (placement_stored _ (windowMap σ1) payload σ1 u ws i); try done.
      * intros v. rewrite (response_writes (windowMap σ1) payload Hknown). split.
        -- intros (u' & ws' & Hin' & Hu' & [[=]|[= ->]]). eauto.
        -- intros (u' & ws' & Hin' & Hu' & ->). eauto 10.
      * intros u' _ Hu'. destruct (Hcons1 u' i Hu') as [_ Hstored']. congruence.
Qed.

(** ** A request for windows that are all open *)

Section requests.
Implicit Types (σ : World) (byUUID : JsMap.t WindowID).

Lemma sync_request_all_open byUUID σ :
  JsMap.wf byUUID → (∀ u i, (u, i) ∈ byUUID → is_open σ i) →
  sync_request byUUID σ =
  (perform (((fun e => sessions_getWindowValue e.2 "workspace") <$> byUUID)
            ++ beacon_calls byUUID
            ++ [host_postMessage
                  {| request_windows :=
                       (fun e => (e.1, or_null (stored σ e.2 "workspace")))
                         <$> byUUID |}]) σ,
   Fulfilled tt).
Proof.
  intros Hwf Hopen. rewrite sync_request_spec. cbn zeta.
  assert ((fun e : string * nat =>
             settled_map (fun v => (e.1, or_null v)) (read_of σ e.2 "workspace"))
            <$> byUUID
          = Fulfilled <$> ((fun e : string * nat =>
                              (e.1, or_null (stored σ e.2 "workspace"))) <$> byUUID))
    as ->.
  { rewrite <- list_fmap_compose. apply Forall_fmap_ext, Forall_forall.
    intros [u i] Hin. cbn. by rewrite (read_of_open σ i "workspace" (Hopen u i Hin)). }
  rewrite Promise_all_Fulfilled. cbn [settled_map].
  rewrite of_entries_wf.
  2:{ unfold JsMap.wf, JsMap.keys. by rewrite <- list_fmap_compose. }
  assert (settled_map (fun _ => tt)
            (Promise_all ((fun c => answer c (browser σ)) <$> beacon_calls byUUID))
          = Fulfilled tt) as Hall.
  { apply answers_fulfilled. intros c Hc.
    apply list_elem_of_fmap in Hc as ([u i] & -> & Hin). cbn.
    by destruct (Hopen u i Hin) as [win ->]. }
  destruct (Promise_all _) as [l|err]; [|done].
  by rewrite perform_app, <- app_assoc.
Qed.

Lemma opening_consistent σ ws pre post :
  JsMap.wf (windowMap σ) → consistent σ →
  NoDup (id <$> ws) → (∀ w, w ∈ ws → is_open σ (id w)) →
  Forall is_read pre → Forall request_call post →
  consistent (updateWindowMap (identity_map σ ws)
                (perform (pre ++ assign_calls (identities σ ws) ++ post) σ)).
Proof.
  intros Hwf Hcons Hnd Hopen Hpre Hpost u i Hu.
  change (is_open (updateWindowMap ?m ?τ) i) with (is_open τ i).
  change (stored (updateWindowMap ?m ?τ) i "uuid") with (stored τ i "uuid").
  rewrite is_open_perform.
  cbn [windowMap updateWindowMap set_windowMap perform] in Hu.
  apply get_of_entries_elem, elem_of_app in Hu as [Hu|Hu].
  - apply (elem_of_get _ _ _ Hwf) in Hu. destruct (Hcons u i Hu) as [Hi Hs].
    split; [done | by apply opening_stored_kept].
  - apply elem_of_get in Hu; [|apply wf_of_entries].
    apply identity_map_elem in Hu as [f Hin]. split.
    + destruct (identities_window σ ws u i f Hin) as [Hi _].
      apply list_elem_of_fmap in Hi as (w & -> & Hw). by apply Hopen.
    + by apply (opening_stored_uuid σ ws pre post u i f).
Qed.
End requests.

(** X14.  What [main] achieves.  From a [windowMap] that is consistent with
    the windows (the empty one the script starts with, for one), the promise
    of [main] is fulfilled; the last call it makes is the post of a sync
    request that has one entry for each identity of [windowMap], in its
    order, with the stored ['workspace'] of the identity's window, or [null];
    and the title preface of each of these windows is the marker of its
    identity. *)
Theorem startup_posts_request (σ : World) :
  JsMap.wf (windowMap σ) → consistent σ →
  let σ' := (main σ).1 in
  (main σ).2 = Fulfilled tt
  ∧ last (calls σ') =
    Some (host_postMessage
            {| request_windows :=
                 (fun e => (e.1, or_null (stored σ e.2 "workspace")))
                   <$> windowMap σ' |})
  ∧ ∀ u i, JsMap.get (windowMap σ') u = Some i → title σ' i = Some (marker u).
Proof.
  intros Hwf Hcons σ'. subst σ'.
  destruct (opening_handler_shape Startup σ (or_introl eq_refl))
    as (ws & pre & byUUID & Hnd & Hopen & Hpre & _ & _ & Heq & ->).
  cbn [handler] in Heq. cbn zeta in Heq. rewrite Heq. clear Heq.
  set (σ1 := updateWindowMap (identity_map σ ws)
               (perform (pre ++ assign_calls (identities σ ws)) σ)).
  assert (consistent σ1) as Hcons1.
  { pose proof (opening_consistent σ ws pre [] Hwf Hcons Hnd Hopen Hpre
                  (Forall_nil_2 _)) as H.
    by rewrite app_nil_r in H. }
  assert (JsMap.wf (windowMap σ1)) as Hwf1 by apply wf_of_entries.
  assert (∀ i key, key ≠ "uuid" → stored σ1 i key = stored σ i key) as Hkeep.
  { intros i key Hkey.
    pose proof (opening_stored_other σ ws pre [] i key Hpre (Forall_nil_2 _) Hkey) as H.
    by rewrite app_nil_r in H. }
  rewrite sync_request_all_open; [|done|].
  2:{ intros u i Hin. apply (elem_of_get _ _ _ Hwf1) in Hin.
      by destruct (Hcons1 u i Hin). }
  cbn [fst snd]. split_and!.
  - done.
  - cbn [calls perform windowMap]. rewrite !app_assoc, last_snoc. do 3 f_equal.
    apply Forall_fmap_ext, Forall_forall. intros [u i] _. cbn.
    by rewrite Hkeep.
  - intros u i Hu. cbn [windowMap perform] in Hu.
    destruct (Hcons1 u i Hu) as [[win Hwin] _].
    unfold title. cbn [browser perform]. rewrite lookup_apply_writes, Hwin. cbn.
    f_equal. apply final_title_agree.
    + intros q Hq. rewrite !bind_app, !elem_of_app in Hq.
      destruct Hq as [Hq|[Hq|Hq]].
      * apply list_elem_of_bind in Hq as (c & Hq & Hc).
        apply list_elem_of_fmap in Hc as (? & -> & _). by apply elem_of_nil in Hq.
      * apply beacon_writes in Hq as (u' & Hin & [= ->]).
        apply (elem_of_get _ _ _ Hwf1) in Hin.
        destruct (Hcons1 u i Hu) as [_ H1]. destruct (Hcons1 u' i Hin) as [_ H2].
        congruence.
      * cbn in Hq. by apply elem_of_nil in Hq.
    + exists (marker u). rewrite !bind_app, !elem_of_app. right. left.
      apply beacon_writes. exists u. split; [|done]. by apply get_Some_elem_of.
Qed.

(** ** The further theorems at work in the example world *)

Lemma example_world_consistent : consistent example_world.
Proof.
  intros u w Hu. cbn in Hu.
  destruct (decide ("A" = u)) as [<-|_].
  { injection Hu as <-. split; [by eexists | by vm_compute]. }
  destruct (decide ("B" = u)) as [<-|_]; [|done].
  injection Hu as <-. split; [by eexists | by vm_compute].
Qed.



(** X4 for the identity [B] through a startup and a new window. *)
Lemma windowMap_grows_witness :
  let es := [Startup; Created {| id := 3 |}] in
  "B" ∈ JsMap.keys (windowMap example_world)
  ∧ "B" ∈ JsMap.keys (windowMap (run es example_world)).
Proof.
  intros es.
  assert (H : "B" ∈ JsMap.keys (windowMap example_world))
    by (by apply (bool_decide_unpack _)).
  exact (conj H (windowMap_grows es example_world "B" H)).
Defined.

(** X5 for the stored workspace of window 2. *)
Lemma opening_keeps_other_values_witness :
  "workspace" ≠ "uuid"
  ∧ stored (main example_world).1 2 "workspace" = Some "2"
  ∧ stored (handleWindowCreated {| id := 3 |} example_world).1 2 "workspace"
    = Some "2".
Proof.
  assert (H : "workspace" ≠ "uuid") by done.
  pose proof (opening_keeps_other_values example_world {| id := 3 |} 2 "workspace" H)
    as [H1 H2].
  assert (H0 : stored example_world 2 "workspace" = Some "2") by (by vm_compute).
  rewrite H0 in H1, H2.
  exact (conj H (conj H1 H2)).
Defined.

(** X6 for window 3, which has no identity before the startup. *)
Lemma startup_assigns_identities_witness :
  is_open example_world 3
  ∧ ∃ u, stored (main example_world).1 3 "uuid" = Some u
         ∧ u ∈ JsMap.keys (windowMap (main example_world).1).
Proof.
  assert (H : is_open example_world 3) by (by eexists).
  refine (conj H _).
  destruct (startup_assigns_identities example_world 3 H) as (u & H1 & H2 & _).
  exists u. exact (conj H1 H2).
Defined.

(** X7 for a window 7 that is not open. *)
Lemma window_created_and_closed_witness :
  ¬ is_open example_world 7
  ∧ (handleWindowCreated {| id := 7 |} example_world).2
    = Rejected (InvalidWindowID 7).
Proof.
  assert (H : ¬ is_open example_world 7).
  { intros [win Hwin]. by vm_compute in Hwin. }
  exact (conj H (proj1 (window_created_and_closed {| id := 7 |} example_world H))).
Defined.

(** X8 for window 3, which gets the first UUID drawn. *)
Lemma window_created_registered_witness :
  let σ' := (handleWindowCreated {| id := 3 |} example_world).1 in
  is_open example_world 3
  ∧ stored σ' 3 "uuid" = Some "uuid-0"
  ∧ title σ' 3 = Some "uuid-0 | ".
Proof.
  intros σ'.
  assert (H : is_open example_world 3) by (by eexists).
  pose proof (window_created_registered {| id := 3 |} example_world H)
    as (_ & H1 & _ & H2 & _).
  exact (conj H (conj H1 H2)).
Defined.

(** X9 for a table that moves [B] and adds [C]. *)
Lemma updateWindowMap_idempotent_witness :
  let wmap := [("B", 5); ("C", 3)] in
  JsMap.wf wmap
  ∧ updateWindowMap wmap (updateWindowMap wmap example_world)
    = updateWindowMap wmap example_world.
Proof.
  intros wmap.
  assert (H : JsMap.wf wmap) by (by apply (bool_decide_unpack _)).
  exact (conj H (updateWindowMap_idempotent wmap example_world H)).
Defined.

(** X10 for window 2, on workspace [2], and a rename that swaps the names
    [2] and [5]. *)
Lemma rename_simultaneous_witness :
  let payload := [("2", "5"); ("5", "2")] in
  let σ' := (handleHostMessage (rename_notification payload) example_world).1 in
  is_open example_world 2
  ∧ stored example_world 2 "workspace" = Some "2"
  ∧ stored σ' 2 "workspace" = Some "5".
Proof.
  intros payload σ'.
  assert (H1 : is_open example_world 2) by (by eexists).
  assert (H2 : stored example_world 2 "workspace" = Some "2") by (by vm_compute).
  refine (conj H1 (conj H2 _)).
  exact (proj1 (rename_simultaneous (rename_notification payload) payload
                  example_world 2 "2" eq_refl eq_refl eq_refl H1 H2)
               "5" eq_refl).
Defined.

(** X11 for a move notification and the marked window 2. *)
Lemma notification_keeps_titles_witness :
  let message := move_notification [("B", "3")] in
  truthy (windows message) = None
  ∧ title (handleHostMessage message example_world).1 2 = Some "B | ".
Proof.
  intros message.
  pose proof (notification_keeps_titles message example_world 2 eq_refl) as H.
  assert (H0 : title example_world 2 = Some "B | ") by (by vm_compute).
  rewrite H0 in H.
  exact (conj eq_refl H).
Defined.

(** X12 for the move of window 2 to workspace [3]. *)
Lemma window_move_applied_witness :
  let payload := [("B", "3")] in
  let message := move_notification payload in
  JsMap.wf payload
  ∧ is_open example_world 2
  ∧ stored (handleHostMessage message example_world).1 2 "workspace" = Some "3".
Proof.
  intros payload message.
  assert (Hwf : JsMap.wf payload) by (by apply (bool_decide_unpack _)).
  assert (Hopen : is_open example_world 2) by (by eexists).
  assert (Hknown : ∀ u, u ∈ JsMap.keys payload →
                        is_Some (JsMap.get (windowMap example_world) u)).
  { intros u Hu. member_cases Hu. by eexists. }
  refine (conj Hwf (conj Hopen _)).
  refine (proj1 (window_move_applied message payload example_world
                   eq_refl eq_refl Hwf Hknown)
                "B" "3" 2 _ eq_refl Hopen _).
  - by apply (bool_decide_unpack _).
  - intros u Hu. by member_cases Hu.
Defined.

(** X13 for the creation of window 3 and the host's answer that places it
    on workspace [4]. *)
Lemma sync_request_answered_witness :
  let e := Created {| id := 3 |} in
  let request := {| request_windows := [("uuid-0", null)] |} in
  let payload := [("uuid-0", "4")] in
  let σ1 := (handler e example_world).1 in
  (handler e example_world).2 = Fulfilled tt
  ∧ last (calls σ1) = Some (host_postMessage request)
  ∧ (handleHostMessage (sync_response payload) σ1).2 = Fulfilled tt.
Proof.
  intros e request payload σ1.
  assert (H1 : JsMap.wf (windowMap example_world)) by (by apply (bool_decide_unpack _)).
  assert (Hok : (handler e example_world).2 = Fulfilled tt) by (by vm_compute).
  assert (Hlast : last (calls σ1) = Some (host_postMessage request)) by (by vm_compute).
  assert (Hwf : JsMap.wf payload) by (by apply (bool_decide_unpack _)).
  assert (Hsub : ∀ u, u ∈ JsMap.keys payload → u ∈ JsMap.keys (request_windows request)).
  { intros u Hu. member_cases Hu. by apply (bool_decide_unpack _). }
  refine (conj Hok (conj Hlast _)).
  exact (proj1 (sync_request_answered e example_world request (sync_response payload)
                  payload H1 example_world_consistent
                  (or_intror (ex_intro _ _ eq_refl)) Hok Hlast eq_refl Hwf Hsub)).
Defined.

(** X14 for the example world. *)
Lemma startup_posts_request_witness :
  JsMap.wf (windowMap example_world)
  ∧ consistent example_world
  ∧ (main example_world).2 = Fulfilled tt.
Proof.
  assert (H1 : JsMap.wf (windowMap example_world)) by (by apply (bool_decide_unpack _)).
  pose proof example_world_consistent as H2.
  exact (conj H1 (conj H2 (proj1 (startup_posts_request example_world H1 H2)))).
Defined.
